(** * Content planner: the durable document store

    A shallow embedding of the persistence layer of the content planner
    back end:

    - [backend/utils/db.js]        readJSON, writeJSON, genId, appendLog
    - [backend/utils/db-cache.js]  the posts cache and the atomic mutators
    - [backend/middleware/auth.js] the session table

    JavaScript promises are run to completion one call at a time: a call is
    a function from the state of the world (files, console, clock, module
    variables, and the plan of failures the environment is going to
    inject) to an outcome and a new world.  Interleavings of several
    calls in flight are outside this model; the in-process queues
    ([writeInProgress], [sessionLock]) only order such calls, find the
    queue idle at every call of a sequential run and leave it idle, and
    are therefore not represented. *)

From stdpp Require Import gmap strings list.
From Stdlib Require Import ZArith NArith Ascii String Sorting.Permutation Sorting.Sorted Lia.

Open Scope string_scope.
Open Scope Z_scope.

(** ** The JavaScript runtime *)

Module Js.

(** *** Strings (byte strings; files hold them as they are) *)

Definition LF : ascii := "010"%char.
Definition DQ : ascii := "034"%char.
Definition BS : ascii := "092"%char.
Definition nl : string := String LF "".

Fixpoint contains_char (c : ascii) (s : string) : bool :=
  match s with
  | "" => false
  | String d s' => if Ascii.eqb c d then true else contains_char c s'
  end.

Fixpoint count_char (c : ascii) (s : string) : nat :=
  match s with
  | "" => O
  | String d s' => ((if Ascii.eqb c d then 1 else 0) + count_char c s')%nat
  end.

Fixpoint rev_string (acc s : string) : string :=
  match s with
  | "" => acc
  | String c s' => rev_string (String c acc) s'
  end.

(** White space of [String.prototype.trim], on the ASCII range. *)
Definition is_space (c : ascii) : bool :=
  let n := nat_of_ascii c in
  ((n =? 32) || (n =? 9) || (n =? 10) || (n =? 11) || (n =? 12) || (n =? 13))%nat.

Fixpoint trim_start (s : string) : string :=
  match s with
  | String c s' => if is_space c then trim_start s' else s
  | "" => ""
  end.

Definition trim (s : string) : string :=
  rev_string "" (trim_start (rev_string "" (trim_start s))).

(** [s || d] for a string [s]: the empty string is falsy. *)
Definition or_default (s d : string) : string :=
  match s with "" => d | _ => s end.

(** [s.split(sep)] for a one-character separator. *)
Fixpoint split_on (sep : ascii) (cur : string) (s : string) : list string :=
  match s with
  | "" => [rev_string "" cur]
  | String c s' =>
      if Ascii.eqb c sep then rev_string "" cur :: split_on sep "" s'
      else split_on sep (String c cur) s'
  end.

Definition split (sep : ascii) (s : string) : list string := split_on sep "" s.

(** *** Numbers: integers, [None] is NaN *)

Definition number := option Z.

Definition digit_char (d : Z) : ascii :=
  ascii_of_nat (Z.to_nat (if d <? 10 then 48 + d else 87 + d)).

Fixpoint to_radix (fuel : nat) (radix n : Z) (acc : string) : string :=
  match fuel with
  | O => acc
  | S fuel' =>
      let acc' := String (digit_char (n mod radix)) acc in
      if n <? radix then acc' else to_radix fuel' radix (n / radix) acc'
  end.

(** [n.toString(radix)] for an integer [n]. *)
Definition toString (radix n : Z) : string :=
  if n <? 0 then "-" ++ to_radix (S (Z.to_nat (Z.log2 (- n)))) radix (- n) ""
  else to_radix (S (Z.to_nat (Z.log2 n))) radix n "".

Definition digit_value (c : ascii) : option Z :=
  let n := Z.of_nat (nat_of_ascii c) in
  if (48 <=? n) && (n <=? 57) then Some (n - 48) else None.

Fixpoint digits_value (acc : Z) (s : string) : option Z :=
  match s with
  | "" => Some acc
  | String c s' =>
      match digit_value c with
      | Some d => digits_value (10 * acc + d) s'
      | None => None
      end
  end.

(** [Number(s)] for a string of decimal digits; the empty string is 0.
    Signs, fractions, exponents, hexadecimal and surrounding blanks are
    not covered: such strings are NaN here. *)
Definition Number (s : string) : number := digits_value 0 s.

(** *** JSON values *)

Unset Elimination Schemes.
Inductive json : Type :=
| JNull
| JBool (b : bool)
| JNum (n : Z)
| JStr (s : string)
| JArr (l : list json)
| JObj (kvs : list (string * json)).
Set Elimination Schemes.

(** Own properties of an object, in insertion order. *)
Definition object := list (string * json).

Fixpoint obj_get (k : string) (o : object) : option json :=
  match o with
  | [] => None
  | (k', v) :: o' => if String.eqb k k' then Some v else obj_get k o'
  end.

(** [o[k] = v]: an existing property keeps its place. *)
Fixpoint obj_set (k : string) (v : json) (o : object) : object :=
  match o with
  | [] => [(k, v)]
  | (k', v') :: o' =>
      if String.eqb k k' then (k, v) :: o' else (k', v') :: obj_set k v o'
  end.

(** [Object.assign(target, source)]. *)
Definition Object_assign (target source : object) : object :=
  fold_left (fun acc kv => obj_set (fst kv) (snd kv) acc) source target.

(** Truthiness of a property value ([None] is [undefined]). *)
Definition truthy (v : option json) : bool :=
  match v with
  | None | Some JNull | Some (JBool false) | Some (JNum 0) | Some (JStr "") => false
  | Some _ => true
  end.

(** [a === b] where [b] is a primitive; objects and arrays are compared
    by reference and a freshly parsed one is identical to nothing else. *)
Definition strict_eq (a : option json) (b : json) : bool :=
  match a, b with
  | Some JNull, JNull => true
  | Some (JBool x), JBool y => Bool.eqb x y
  | Some (JNum x), JNum y => x =? y
  | Some (JStr x), JStr y => String.eqb x y
  | _, _ => false
  end.

(** *** JSON.stringify *)

Definition hex4 (n : Z) : string :=
  String (digit_char ((n / 4096) mod 16)) (String (digit_char ((n / 256) mod 16))
    (String (digit_char ((n / 16) mod 16)) (String (digit_char (n mod 16)) ""))).

Definition escape_char (c : ascii) : string :=
  let n := Z.of_nat (nat_of_ascii c) in
  if n =? 34 then String BS (String DQ "") else if n =? 92 then String BS (String BS "")
  else if n =? 8 then String BS "b" else if n =? 9 then String BS "t"
  else if n =? 10 then String BS "n" else if n =? 12 then String BS "f"
  else if n =? 13 then String BS "r"
  else if n <? 32 then String BS ("u" ++ hex4 n)
  else String c "".

Fixpoint escape (s : string) : string :=
  match s with
  | "" => ""
  | String c s' => escape_char c ++ escape s'
  end.

Definition quote (s : string) : string := String DQ (escape s ++ String DQ "").

(** [JSON.stringify(v)]: the compact form. *)
Fixpoint stringify (v : json) : string :=
  match v with
  | JNull => "null"
  | JBool true => "true"
  | JBool false => "false"
  | JNum n => toString 10 n
  | JStr s => quote s
  | JArr l =>
      "[" ++ (fix elems (l : list json) : string :=
                match l with
                | [] => ""
                | x :: l' =>
                    stringify x ++ match l' with [] => "" | _ => "," ++ elems l' end
                end) l ++ "]"
  | JObj kvs =>
      "{" ++ (fix members (kvs : list (string * json)) : string :=
                match kvs with
                | [] => ""
                | (k, x) :: kvs' =>
                    quote k ++ ":" ++ stringify x
                      ++ match kvs' with [] => "" | _ => "," ++ members kvs' end
                end) kvs ++ "}"
  end.

(** [JSON.stringify(v, null, gap)]: one item per line, nested items
    indented by [gap] more than their parent's [indent]. *)
Fixpoint stringify_indent (gap indent : string) (v : json) : string :=
  match v with
  | JArr [] => "[]"
  | JObj [] => "{}"
  | JArr l =>
      let inner := indent ++ gap in
      "[" ++ nl ++ (fix elems (l : list json) : string :=
                match l with
                | [] => ""
                | x :: l' =>
                    inner ++ stringify_indent gap inner x
                      ++ match l' with [] => "" | _ => "," ++ nl ++ elems l' end
                end) l ++ nl ++ indent ++ "]"
  | JObj kvs =>
      let inner := indent ++ gap in
      "{" ++ nl ++ (fix members (kvs : list (string * json)) : string :=
                match kvs with
                | [] => ""
                | (k, x) :: kvs' =>
                    inner ++ quote k ++ ": " ++ stringify_indent gap inner x
                      ++ match kvs' with [] => "" | _ => "," ++ nl ++ members kvs' end
                end) kvs ++ nl ++ indent ++ "}"
  | _ => stringify v
  end.

(** [JSON.stringify(v, null, 2)]. *)
Definition stringify2 (v : json) : string := stringify_indent "  " "" v.

(** *** JSON.parse

    Texts with integer numbers and ASCII escapes; a fraction, an exponent
    or an escape above U+007F is not covered and is rejected here.
    [None] stands for the SyntaxError. *)

Definition is_json_ws (c : ascii) : bool :=
  let n := nat_of_ascii c in ((n =? 32) || (n =? 9) || (n =? 10) || (n =? 13))%nat.

Fixpoint skip_ws (s : string) : string :=
  match s with
  | String c s' => if is_json_ws c then skip_ws s' else s
  | "" => ""
  end.

Fixpoint take_digits (acc : Z) (s : string) : Z * string :=
  match s with
  | String c s' =>
      match digit_value c with
      | Some d => take_digits (10 * acc + d) s'
      | None => (acc, s)
      end
  | "" => (acc, "")
  end.

Definition number_ends (s : string) : bool :=
  match s with
  | String c _ =>
      negb (Ascii.eqb c "." || Ascii.eqb c "e" || Ascii.eqb c "E"
            || match digit_value c with Some _ => true | None => false end)
  | "" => true
  end.

Definition parse_nat (s : string) : option (Z * string) :=
  match s with
  | String c s' =>
      match digit_value c with
      | Some 0 => if number_ends s' then Some (0, s') else None
      | Some d => let '(n, rest) := take_digits d s' in
                  if number_ends rest then Some (n, rest) else None
      | None => None
      end
  | "" => None
  end.

Definition hex_value (c : ascii) : option Z :=
  let n := Z.of_nat (nat_of_ascii c) in
  if (48 <=? n) && (n <=? 57) then Some (n - 48)
  else if (97 <=? n) && (n <=? 102) then Some (n - 87)
  else if (65 <=? n) && (n <=? 70) then Some (n - 55)
  else None.

Definition unescape (c : ascii) : option ascii :=
  if Ascii.eqb c DQ then Some DQ else if Ascii.eqb c BS then Some BS
  else if Ascii.eqb c "/" then Some "/"%char
  else if Ascii.eqb c "b" then Some "008"%char
  else if Ascii.eqb c "f" then Some "012"%char
  else if Ascii.eqb c "n" then Some "010"%char
  else if Ascii.eqb c "r" then Some "013"%char
  else if Ascii.eqb c "t" then Some "009"%char
  else None.

(** The characters of a string literal after its opening quote. *)
Fixpoint parse_chars (acc : string) (s : string) : option (string * string) :=
  match s with
  | "" => None
  | String c s' =>
      if Ascii.eqb c DQ then Some (rev_string "" acc, s')
      else if Ascii.eqb c BS then
        match s' with
        | String "u" (String h1 (String h2 (String h3 (String h4 s'')))) =>
            match hex_value h1, hex_value h2, hex_value h3, hex_value h4 with
            | Some a, Some b, Some c', Some d =>
                let n := 4096 * a + 256 * b + 16 * c' + d in
                if n <? 128 then parse_chars (String (ascii_of_nat (Z.to_nat n)) acc) s''
                else None
            | _, _, _, _ => None
            end
        | String e s'' =>
            match unescape e with
            | Some x => parse_chars (String x acc) s''
            | None => None
            end
        | "" => None
        end
      else if (nat_of_ascii c <? 32)%nat then None
      else parse_chars (String c acc) s'
  end.

Definition expect (word : string) (v : json) (s : string) : option (json * string) :=
  if String.prefix word s
  then Some (v, String.substring (String.length word) (String.length s - String.length word) s)
  else None.

Fixpoint parse_value (fuel : nat) (s : string) : option (json * string) :=
  match fuel with
  | O => None
  | S fuel' =>
      match skip_ws s with
      | "" => None
      | String c s' =>
          if Ascii.eqb c "n" then expect "null" JNull (String c s')
          else if Ascii.eqb c "t" then expect "true" (JBool true) (String c s')
          else if Ascii.eqb c "f" then expect "false" (JBool false) (String c s')
          else if Ascii.eqb c DQ then
            match parse_chars "" s' with
            | Some (x, rest) => Some (JStr x, rest)
            | None => None
            end
          else if Ascii.eqb c "-" then
            match parse_nat s' with
            | Some (n, rest) => Some (JNum (- n), rest)
            | None => None
            end
          else if Ascii.eqb c "[" then
            match skip_ws s' with
            | String "]" rest => Some (JArr [], rest)
            | _ =>
                match parse_value fuel' s' with
                | Some (x, rest) =>
                    match parse_elements fuel' [x] rest with
                    | Some (l, rest') => Some (JArr l, rest')
                    | None => None
                    end
                | None => None
                end
            end
          else if Ascii.eqb c "{" then
            match skip_ws s' with
            | String "}" rest => Some (JObj [], rest)
            | _ =>
                match parse_members fuel' [] (String "," s') with
                | Some (o, rest) => Some (JObj o, rest)
                | None => None
                end
            end
          else
            match parse_nat (String c s') with
            | Some (n, rest) => Some (JNum n, rest)
            | None => None
            end
      end
  end
with parse_elements (fuel : nat) (acc : list json) (s : string) : option (list json * string) :=
  match fuel with
  | O => None
  | S fuel' =>
      match skip_ws s with
      | String "]" rest => Some (acc, rest)
      | String "," rest =>
          match parse_value fuel' rest with
          | Some (x, rest') => parse_elements fuel' (acc ++ [x])%list rest'
          | None => None
          end
      | _ => None
      end
  end
with parse_members (fuel : nat) (acc : object) (s : string) : option (object * string) :=
  match fuel with
  | O => None
  | S fuel' =>
      match skip_ws s with
      | String "}" rest => match acc with [] => None | _ => Some (acc, rest) end
      | String "," rest =>
          match skip_ws rest with
          | String c rest1 =>
              if Ascii.eqb c DQ then
                match parse_chars "" rest1 with
                | Some (k, rest2) =>
                    match skip_ws rest2 with
                    | String ":" rest3 =>
                        match parse_value fuel' rest3 with
                        | Some (x, rest4) => parse_members fuel' (obj_set k x acc) rest4
                        | None => None
                        end
                    | _ => None
                    end
                | None => None
                end
              else None
          | "" => None
          end
      | _ => None
      end
  end.

Definition JSON_parse (s : string) : option json :=
  match parse_value (S (S (String.length s))) s with
  | Some (v, rest) => match skip_ws rest with "" => Some v | _ => None end
  | None => None
  end.

(** *** Date

    [new Date(s).getTime()] for the date-only form YYYY-MM-DD of a
    calendar day, in milliseconds since the epoch (UTC).  Other forms
    that the engine would accept are not covered and are NaN here. *)

Definition days_from_civil (y m d : Z) : Z :=
  let y' := if m <=? 2 then y - 1 else y in
  let era := y' / 400 in
  let yoe := y' - era * 400 in
  let doy := (153 * (if m >? 2 then m - 3 else m + 9) + 2) / 5 + d - 1 in
  let doe := yoe * 365 + yoe / 4 - yoe / 100 + doy in
  era * 146097 + doe - 719468.

Definition is_leap (y : Z) : bool :=
  ((y mod 4 =? 0) && negb (y mod 100 =? 0)) || (y mod 400 =? 0).

Definition days_in_month (y m : Z) : Z :=
  if m =? 2 then (if is_leap y then 29 else 28)
  else if (m =? 4) || (m =? 6) || (m =? 9) || (m =? 11) then 30 else 31.

Definition Date_parse (s : string) : number :=
  match s with
  | String y1 (String y2 (String y3 (String y4 (String "-"
      (String m1 (String m2 (String "-" (String d1 (String d2 ""))))))))) =>
      match digits_value 0 (String y1 (String y2 (String y3 (String y4 "")))),
            digits_value 0 (String m1 (String m2 "")),
            digits_value 0 (String d1 (String d2 "")) with
      | Some y, Some m, Some d =>
          if (1 <=? m) && (m <=? 12) && (1 <=? d) && (d <=? days_in_month y m)
          then Some (86400000 * days_from_civil y m d)
          else None
      | _, _, _ => None
      end
  | _ => None
  end.

(** *** SHA-256, as [crypto.createHash('sha256').update(s).digest('hex')] *)

Module Sha256.
Open Scope N_scope.

Definition w32 (x : N) : N := N.land x 4294967295.
Definition add32 (x y : N) : N := w32 (x + y).
Definition rotr (n x : N) : N := N.lor (N.shiftr x n) (w32 (N.shiftl x (32 - n))).
Definition not32 (x : N) : N := N.lxor x 4294967295.

Definition Ch (x y z : N) : N := N.lxor (N.land x y) (N.land (not32 x) z).
Definition Maj (x y z : N) : N := N.lxor (N.lxor (N.land x y) (N.land x z)) (N.land y z).
Definition Sigma0 (x : N) : N := N.lxor (N.lxor (rotr 2 x) (rotr 13 x)) (rotr 22 x).
Definition Sigma1 (x : N) : N := N.lxor (N.lxor (rotr 6 x) (rotr 11 x)) (rotr 25 x).
Definition sigma0 (x : N) : N := N.lxor (N.lxor (rotr 7 x) (rotr 18 x)) (N.shiftr x 3).
Definition sigma1 (x : N) : N := N.lxor (N.lxor (rotr 17 x) (rotr 19 x)) (N.shiftr x 10).

Definition K : list N :=
  [ 1116352408; 1899447441; 3049323471; 3921009573; 961987163; 1508970993;
    2453635748; 2870763221; 3624381080; 310598401; 607225278; 1426881987;
    1925078388; 2162078206; 2614888103; 3248222580; 3835390401; 4022224774;
    264347078; 604807628; 770255983; 1249150122; 1555081692; 1996064986;
    2554220882; 2821834349; 2952996808; 3210313671; 3336571891; 3584528711;
    113926993; 338241895; 666307205; 773529912; 1294757372; 1396182291;
    1695183700; 1986661051; 2177026350; 2456956037; 2730485921; 2820302411;
    3259730800; 3345764771; 3516065817; 3600352804; 4094571909; 275423344;
    430227734; 506948616; 659060556; 883997877; 958139571; 1322822218;
    1537002063; 1747873779; 1955562222; 2024104815; 2227730452; 2361852424;
    2428436474; 2756734187; 3204031479; 3329325298 ].

Definition H0 : list N :=
  [ 1779033703; 3144134277; 1013904242; 2773480762;
    1359893119; 2600822924; 528734635; 1541459225 ].

Definition word (i : nat) (l : list N) : N := nth i l 0.

(** One round per constant; [ws] is the window W[t..t+15]. *)
Fixpoint rounds (ks : list N) (ws : list N) (st : list N) : list N :=
  match ks with
  | [] => st
  | k :: ks' =>
      let '(a, b, c, d) := (word 0 st, word 1 st, word 2 st, word 3 st) in
      let '(e, f, g, h) := (word 4 st, word 5 st, word 6 st, word 7 st) in
      let t1 := add32 (add32 (add32 (add32 h (Sigma1 e)) (Ch e f g)) k) (word 0 ws) in
      let t2 := add32 (Sigma0 a) (Maj a b c) in
      let w16 := add32 (add32 (add32 (sigma1 (word 14 ws)) (word 9 ws))
                          (sigma0 (word 1 ws))) (word 0 ws) in
      rounds ks' (tl ws ++ [w16])%list [add32 t1 t2; a; b; c; add32 d t1; e; f; g]
  end.

Fixpoint words_of_bytes (bs : list N) : list N :=
  match bs with
  | b0 :: b1 :: b2 :: b3 :: bs' =>
      (b0 * 16777216 + b1 * 65536 + b2 * 256 + b3) :: words_of_bytes bs'
  | _ => []
  end.

Fixpoint blocks (fuel : nat) (ws : list N) (st : list N) : list N :=
  match fuel with
  | O => st
  | S fuel' =>
      match ws with
      | [] => st
      | _ =>
          let st' := rounds K (firstn 16 ws) st in
          blocks fuel' (skipn 16 ws) (zip_with add32 st st')
      end
  end.

Fixpoint bytes_of_string (s : string) : list N :=
  match s with
  | "" => []
  | String c s' => N_of_ascii c :: bytes_of_string s'
  end.

Definition pad (bs : list N) : list N :=
  let len := N.of_nat (List.length bs) in
  let zeros := N.to_nat ((119 - len mod 64) mod 64) in
  let bits := len * 8 in
  (bs ++ [128] ++ repeat 0 zeros
      ++ map (fun i => N.shiftr bits (8 * i) mod 256) [7; 6; 5; 4; 3; 2; 1; 0])%list.

Definition hex8 (x : N) : string :=
  fold_right (fun i acc => String (digit_char (Z.of_N (N.shiftr x (4 * i) mod 16))) acc)
             "" [7; 6; 5; 4; 3; 2; 1; 0].

Definition digest (s : string) : string :=
  let ws := words_of_bytes (pad (bytes_of_string s)) in
  fold_right (fun x acc => hex8 x ++ acc) "" (blocks (List.length ws) ws H0).

End Sha256.

Definition sha256 (s : string) : string := Sha256.digest s.

(** *** Paths *)

Fixpoint take_component (acc : string) (rs : string) : string * option string :=
  match rs with
  | "" => (acc, None)
  | String c rs' =>
      if Ascii.eqb c "/" then (acc, Some rs') else take_component (String c acc) rs'
  end.

(** [path.basename(p)] and [path.dirname(p)] for a path that does not end
    in a separator. *)
Definition path_basename (p : string) : string :=
  fst (take_component "" (rev_string "" p)).

Definition path_dirname (p : string) : string :=
  match snd (take_component "" (rev_string "" p)) with
  | None => "."
  | Some "" => "/"
  | Some rd => rev_string "" rd
  end.

End Js.
Import Js.

(** ** The world and the effects of a call *)

Record JsError := mkError { err_code : option string; err_message : string }.

Definition TypeError (msg : string) : JsError := mkError None msg.
Definition SyntaxError (msg : string) : JsError := mkError None msg.
Definition ENOENT (p : string) : JsError :=
  mkError (Some "ENOENT") ("ENOENT: no such file or directory, open '" ++ p ++ "'").

(** [err.code === c]. *)
Definition code_is (err : JsError) (c : string) : bool :=
  match err_code err with
  | Some c' => String.eqb c' c
  | None => false
  end.

Inductive Level := LError | LWarn | LLog.

(** A session of the table: [{ username, role, expires }]. *)
Record Session := mkSession { username : string; role : string; expires : Z }.

Record World := mkWorld {
  (** the disk: path to bytes *)
  files : gmap string string;
  (** what [console.error], [console.warn] and [console.log] printed *)
  console : list (Level * string);
  (** [Date.now()] *)
  clock : Z;
  (** the coming values of [Math.random().toString(36).slice(2, 8)] *)
  random : list string;
  (** the failures the environment injects into the coming calls of [fs],
      of [lockfile.lock] and of the release handles; [None], or a plan
      that ran out, lets the call take its natural course *)
  fs_faults : list (option JsError);
  lock_faults : list (option JsError);
  release_faults : list (option JsError);
  (** db-cache.js: [let postsCache = null; let cacheVersion = 0] *)
  postsCache : json;
  cacheVersion : Z;
  (** auth.js: [const sessions = new Map()], in insertion order *)
  sessions : list (string * Session)
}.

Definition set_files (f : gmap string string) (w : World) : World :=
  mkWorld f (console w) (clock w) (random w) (fs_faults w) (lock_faults w)
          (release_faults w) (postsCache w) (cacheVersion w) (sessions w).
Definition set_console (c : list (Level * string)) (w : World) : World :=
  mkWorld (files w) c (clock w) (random w) (fs_faults w) (lock_faults w)
          (release_faults w) (postsCache w) (cacheVersion w) (sessions w).
Definition set_random (r : list string) (w : World) : World :=
  mkWorld (files w) (console w) (clock w) r (fs_faults w) (lock_faults w)
          (release_faults w) (postsCache w) (cacheVersion w) (sessions w).
Definition set_fs_faults (f : list (option JsError)) (w : World) : World :=
  mkWorld (files w) (console w) (clock w) (random w) f (lock_faults w)
          (release_faults w) (postsCache w) (cacheVersion w) (sessions w).
Definition set_lock_faults (f : list (option JsError)) (w : World) : World :=
  mkWorld (files w) (console w) (clock w) (random w) (fs_faults w) f
          (release_faults w) (postsCache w) (cacheVersion w) (sessions w).
Definition set_release_faults (f : list (option JsError)) (w : World) : World :=
  mkWorld (files w) (console w) (clock w) (random w) (fs_faults w) (lock_faults w)
          f (postsCache w) (cacheVersion w) (sessions w).
Definition set_postsCache (c : json) (w : World) : World :=
  mkWorld (files w) (console w) (clock w) (random w) (fs_faults w) (lock_faults w)
          (release_faults w) c (cacheVersion w) (sessions w).
Definition set_cacheVersion (v : Z) (w : World) : World :=
  mkWorld (files w) (console w) (clock w) (random w) (fs_faults w) (lock_faults w)
          (release_faults w) (postsCache w) v (sessions w).
Definition set_sessions (s : list (string * Session)) (w : World) : World :=
  mkWorld (files w) (console w) (clock w) (random w) (fs_faults w) (lock_faults w)
          (release_faults w) (postsCache w) (cacheVersion w) s.

(** How an awaited call settles. *)
Inductive Outcome (A : Type) : Type :=
| Return (a : A)
| Throw (e : JsError).
Arguments Return {A} a.
Arguments Throw {A} e.

Definition M (A : Type) : Type := World -> Outcome A * World.

Definition ret {A} (a : A) : M A := fun w => (Return a, w).
Definition throw {A} (e : JsError) : M A := fun w => (Throw e, w).
Definition bind {A B} (m : M A) (k : A -> M B) : M B :=
  fun w => match m w with
           | (Return a, w') => k a w'
           | (Throw e, w') => (Throw e, w')
           end.
(** A computation without effects that may throw. *)
Definition lift {A} (o : Outcome A) : M A := fun w => (o, w).

Notation "'let*' x := m 'in' k" := (bind m (fun x => k))
  (at level 10, x name, m at level 100, k at level 200).
Notation "m ;; k" := (bind m (fun _ => k))
  (at level 100, k at level 200, right associativity).

(** [try { body } catch (err) { handler }] *)
Definition try_catch {A} (body : M A) (handler : JsError -> M A) : M A :=
  fun w => match body w with
           | (Return a, w') => (Return a, w')
           | (Throw e, w') => handler e w'
           end.

(** [try { body } finally { fin }]: an exception of [fin] replaces the
    outcome of [body]. *)
Definition finally {A} (body : M A) (fin : M unit) : M A :=
  fun w => match body w with
           | (r, w') =>
               match fin w' with
               | (Return _, w'') => (r, w'')
               | (Throw e, w'') => (Throw e, w'')
               end
           end.

(** A release handle of [proper-lockfile], for the locked path. *)
Definition Release := string.

(** [let release;
     try { pre; release = await lock; body } catch (err) { handler }
     finally { fin(release) }]
    The variable [release] is assigned once, by the call of [lock]: the
    [finally] block finds it set exactly when that call returned. *)
Definition try_locked {A B} (pre : M B) (lock : M Release) (body : B -> M A)
    (handler : JsError -> M A) (fin : option Release -> M unit) : M A :=
  fun w => match pre w with
           | (Throw e, w1) => finally (handler e) (fin None) w1
           | (Return b, w1) =>
               match lock w1 with
               | (Throw e, w2) => finally (handler e) (fin None) w2
               | (Return r, w2) => finally (try_catch (body b) handler) (fin (Some r)) w2
               end
           end.

(** *** The primitives of the environment *)

Definition console_print (l : Level) (msg : string) : M unit :=
  fun w => (Return tt, set_console (console w ++ [(l, msg)])%list w).
Definition console_error := console_print LError.
Definition console_warn := console_print LWarn.
Definition console_log := console_print LLog.

Definition Date_now : M Z := fun w => (Return (clock w), w).

(** [Math.random().toString(36).slice(2, 8)] *)
Definition random_suffix : M string :=
  fun w => match random w with
           | [] => (Return "", w)
           | r :: rs => (Return r, set_random rs w)
           end.

(** Every call of [fs] first meets the plan of injected failures. *)
Definition fs_call {A} (natural : M A) : M A :=
  fun w => match fs_faults w with
           | Some e :: plan => (Throw e, set_fs_faults plan w)
           | None :: plan => natural (set_fs_faults plan w)
           | [] => natural w
           end.

Definition fs_readFile (p : string) : M string :=
  fs_call (fun w => match files w !! p with
                    | Some s => (Return s, w)
                    | None => (Throw (ENOENT p), w)
                    end).

Definition fs_writeFile (p data : string) : M unit :=
  fs_call (fun w => (Return tt, set_files (<[p := data]> (files w)) w)).

Definition fs_appendFile (p data : string) : M unit :=
  fs_call (fun w => (Return tt,
                     set_files (<[p := default "" (files w !! p) ++ data]> (files w)) w)).

Definition fs_copyFile (src dst : string) : M unit :=
  fs_call (fun w => match files w !! src with
                    | Some s => (Return tt, set_files (<[dst := s]> (files w)) w)
                    | None => (Throw (ENOENT src), w)
                    end).

Definition fs_rename (src dst : string) : M unit :=
  fs_call (fun w => match files w !! src with
                    | Some s => (Return tt, set_files (<[dst := s]> (delete src (files w))) w)
                    | None => (Throw (ENOENT src), w)
                    end).

Definition fs_unlink (p : string) : M unit :=
  fs_call (fun w => match files w !! p with
                    | Some _ => (Return tt, set_files (delete p (files w)) w)
                    | None => (Throw (ENOENT p), w)
                    end).

Definition fs_access (p : string) : M unit :=
  fs_call (fun w => match files w !! p with
                    | Some _ => (Return tt, w)
                    | None => (Throw (ENOENT p), w)
                    end).

(** Directories are not part of the disk: [mkdir] with [recursive: true]
    only succeeds or fails. *)
Definition fs_mkdir (dir : string) : M unit := fs_call (ret tt).

Record LockOptions := mkLockOptions {
  retries : Z; minTimeout : Z; maxTimeout : Z; factor : Z; stale : Z; realpath : bool
}.

(** [lockfile.lock(path, options)]: retried by the library as the options
    say; the plan tells whether the lock is had in the end. *)
Definition lockfile_lock (p : string) (options : LockOptions) : M Release :=
  fun w => match lock_faults w with
           | Some e :: plan => (Throw e, set_lock_faults plan w)
           | None :: plan => (Return p, set_lock_faults plan w)
           | [] => (Return p, w)
           end.

(** [release()] *)
Definition release_lock (r : Release) : M unit :=
  fun w => match release_faults w with
           | Some e :: plan => (Throw e, set_release_faults plan w)
           | None :: plan => (Return tt, set_release_faults plan w)
           | [] => (Return tt, w)
           end.

Definition JSON_parse_m (s : string) : M json :=
  match JSON_parse s with
  | Some v => ret v
  | None => throw (SyntaxError "Unexpected token in JSON")
  end.

(** ** backend/utils/db.js *)

(** The install location stands for [__dirname]; nothing depends on it. *)
Definition DB_DIR : string := "/srv/content-planner/backend/db".
Definition POSTS_PATH : string := DB_DIR ++ "/posts.json".
Definition SESSIONS_PATH : string := DB_DIR ++ "/sessions.json".
Definition LOGS_ND_PATH : string := DB_DIR ++ "/logs.ndjson".

Definition LOCK_OPTIONS : LockOptions := mkLockOptions 10 50 500 2 10000 false.
Definition LOCK_OPTIONS_FAST : LockOptions := mkLockOptions 5 20 200 2 5000 false.

Definition readJSON (filePath : string) : M json :=
  try_catch
    (let* data := fs_readFile filePath in
     let checksumPath := filePath ++ ".sha256" in
     (* [Some v]: the function returned [v] from inside the block *)
     let* returned :=
       try_catch
         (let* stored := fs_readFile checksumPath in
          let storedChecksum := trim stored in
          let computedChecksum := sha256 data in
          if negb (String.eqb storedChecksum computedChecksum) then
            console_error ("CHECKSUM MISMATCH for " ++ filePath ++ "! Data may be corrupted.") ;;
            try_catch
              (let backupPath := filePath ++ ".backup" in
               let* backupData := fs_readFile backupPath in
               console_log ("Restored " ++ filePath ++ " from backup") ;;
               let* v := JSON_parse_m (or_default backupData "null") in
               ret (Some v))
              (fun backupErr =>
                 console_error "No backup available, using potentially corrupted data" ;;
                 ret None)
          else ret None)
         (fun checksumErr => ret None) in
     match returned with
     | Some v => ret v
     | None => JSON_parse_m (or_default data "null")
     end)
    (fun err => if code_is err "ENOENT" then ret JNull else throw err).

Definition genId : M string :=
  let* now := Date_now in
  let* r := random_suffix in
  ret (toString 36 now ++ "-" ++ r).

Definition writeJSON (filePath : string) (data : json) : M unit :=
  let dir := path_dirname filePath in
  fs_mkdir dir ;;
  try_locked (ret tt) (lockfile_lock filePath LOCK_OPTIONS)
    (fun _ =>
       let payload := stringify2 data in
       let checksum := sha256 payload in
       let* id := genId in
       let tmpPath := filePath ++ "." ++ id ++ ".tmp" in
       let checksumTmpPath := tmpPath ++ ".sha256" in
       try_catch (fs_copyFile filePath (filePath ++ ".backup")) (fun backupErr => ret tt) ;;
       fs_writeFile tmpPath payload ;;
       fs_writeFile checksumTmpPath checksum ;;
       try_catch
         (fs_rename tmpPath filePath ;;
          fs_rename checksumTmpPath (filePath ++ ".sha256"))
         (fun err =>
            if code_is err "EXDEV" then
              fs_copyFile tmpPath filePath ;;
              fs_copyFile checksumTmpPath (filePath ++ ".sha256") ;;
              fs_unlink tmpPath ;;
              fs_unlink checksumTmpPath
            else if code_is err "ENOENT" then
              fs_writeFile filePath payload ;;
              fs_writeFile (filePath ++ ".sha256") checksum
            else throw err))
    (fun err =>
       console_error ("writeJSON lock failed for " ++ path_basename filePath
                      ++ ", attempting direct write: " ++ err_message err) ;;
       try_catch
         (let payload := stringify2 data in
          let checksum := sha256 payload in
          fs_writeFile filePath payload ;;
          fs_writeFile (filePath ++ ".sha256") checksum)
         (fun err2 =>
            console_error ("Direct writeJSON also failed: " ++ err_message err2) ;;
            throw err))
    (fun release =>
       match release with
       | Some r =>
           try_catch (release_lock r)
             (fun releaseErr =>
                console_warn ("Warning: Failed to release lock (might have been stale): "
                              ++ err_message releaseErr))
       | None => ret tt
       end).

Definition ensureLogsFile : M unit :=
  try_catch
    (fs_mkdir DB_DIR ;;
     try_catch (fs_access LOGS_ND_PATH) (fun e => fs_writeFile LOGS_ND_PATH ""))
    (fun err => console_error ("Failed to ensure logs file exists " ++ err_message err)).

(** [appendLog(entry)] for an object [entry]; the result is [out], or
    [None] for the [null] of a failed append. *)
Definition appendLog (entry : object) : M (option object) :=
  try_locked
    (ensureLogsFile ;;
     let* now := Date_now in
     let* id := genId in
     let out := Object_assign [("id", JStr id); ("time", JNum now)] entry in
     let line := stringify (JObj out) ++ nl in
     ret (out, line))
    (lockfile_lock LOGS_ND_PATH LOCK_OPTIONS_FAST)
    (fun '(out, line) =>
       fs_appendFile LOGS_ND_PATH line ;;
       ret (Some out))
    (fun err =>
       console_error ("appendLog failed: " ++ err_message err) ;;
       ret None)
    (fun release =>
       match release with
       | Some r =>
           try_catch (release_lock r)
             (fun releaseErr =>
                console_error ("Failed to release log lock: " ++ err_message releaseErr))
       | None => ret tt
       end).

(** ** backend/utils/db-cache.js *)

(** [p[k]] for [k] one of the keys of a record ([id], [date], [time]):
    reading a property of [null] throws, other values that are not
    objects have no such property. *)
Definition js_get (p : json) (k : string) : Outcome (option json) :=
  match p with
  | JNull => Throw (TypeError ("Cannot read properties of null (reading '" ++ k ++ "')"))
  | JObj o => Return (obj_get k o)
  | _ => Return None
  end.

Definition obind {A B} (o : Outcome A) (k : A -> Outcome B) : Outcome B :=
  match o with
  | Return a => k a
  | Throw e => Throw e
  end.

(** [new Date(v).getTime()]; a string goes through [Date_parse], an array
    or an object is not covered and is NaN here. *)
Definition getTime (v : option json) : number :=
  match v with
  | Some (JStr s) => Date_parse s
  | Some (JNum n) => if (-8640000000000000 <=? n) && (n <=? 8640000000000000) then Some n else None
  | Some JNull => Some 0
  | Some (JBool b) => Some (if b then 1 else 0)
  | _ => None
  end.

Definition num_sub (x y : number) : number :=
  match x, y with Some a, Some b => Some (a - b) | _, _ => None end.
Definition num_add (x y : number) : number :=
  match x, y with Some a, Some b => Some (a + b) | _, _ => None end.
Definition num_mul (x y : number) : number :=
  match x, y with Some a, Some b => Some (a * b) | _, _ => None end.
(** [x !== y]: NaN differs from everything. *)
Definition num_neq (x y : number) : bool :=
  match x, y with Some a, Some b => negb (a =? b) | _, _ => true end.

(** [(p.time || '00:00').split(':').map(Number)], then [t[0] * 60 + t[1]]. *)
Definition minutesOfDay (p : json) : Outcome number :=
  obind (js_get p "time") (fun t =>
  obind (if truthy t then
           match t with
           | Some (JStr s) => Return s
           | _ => Throw (TypeError "(a.time || '00:00').split is not a function")
           end
         else Return "00:00") (fun s =>
  let t := map Number (split ":" s) in
  Return (num_add (num_mul (nth 0 t None) (Some 60)) (nth 1 t None)))).

(** The comparator of the three sorting writers. *)
Definition comparePosts (a b : json) : Outcome number :=
  obind (js_get a "date") (fun adate =>
  let da := getTime adate in
  obind (js_get b "date") (fun bdate =>
  let db := getTime bdate in
  if num_neq da db then Return (num_sub da db)
  else
    obind (minutesOfDay a) (fun ta =>
    obind (minutesOfDay b) (fun tb =>
    Return (num_sub ta tb))))).

(** [posts.sort(comparePosts)].  The sort of the language is stable, so
    with a consistent comparator that neither throws nor yields NaN the
    result is the same for every engine; it is computed here by
    insertion.  NaN counts as 0, as the language says. *)
Fixpoint insertPost (x : json) (l : list json) : Outcome (list json) :=
  match l with
  | [] => Return [x]
  | y :: l' =>
      obind (comparePosts x y) (fun c =>
      if match c with Some n => 0 <? n | None => false end
      then obind (insertPost x l') (fun r => Return (y :: r))
      else Return (x :: y :: l'))
  end.

Fixpoint sortPosts (l : list json) : Outcome (list json) :=
  match l with
  | [] => Return []
  | x :: l' => obind (sortPosts l') (fun s => insertPost x s)
  end.

Definition get_postsCache : M json := fun w => (Return (postsCache w), w).
Definition put_postsCache (c : json) : M unit := fun w => (Return tt, set_postsCache c w).
(** [cacheVersion++] *)
Definition bump_cacheVersion : M unit :=
  fun w => (Return tt, set_cacheVersion (cacheVersion w + 1) w).

(** [v.slice()] *)
Definition slice (v : json) : Outcome json :=
  match v with
  | JArr l => Return (JArr l)
  | JStr s => Return (JStr s)
  | JNull => Throw (TypeError "Cannot read properties of null (reading 'slice')")
  | _ => Throw (TypeError "posts.slice is not a function")
  end.

Definition is_null (v : json) : bool := match v with JNull => true | _ => false end.

Definition readPostsOptimized : M json :=
  let* cached := get_postsCache in
  if negb (is_null cached) then lift (slice cached)
  else
    try_catch
      (let* data := fs_readFile POSTS_PATH in
       let* posts := JSON_parse_m (or_default data "[]") in
       put_postsCache posts ;;
       bump_cacheVersion ;;
       lift (slice posts))
      (fun err =>
         if code_is err "ENOENT" then put_postsCache (JArr []) ;; ret (JArr [])
         else throw err).

Definition invalidateCache : M unit :=
  put_postsCache JNull ;; bump_cacheVersion.

(** The four writers share these lines: temporary files, then the two
    renames. *)
Definition writeAndRename (payload : string) : M unit :=
  let checksum := sha256 payload in
  let* now := Date_now in
  let tmpPath := POSTS_PATH ++ ".tmp." ++ toString 10 now in
  fs_writeFile tmpPath payload ;;
  fs_writeFile (tmpPath ++ ".sha256") checksum ;;
  fs_rename tmpPath POSTS_PATH ;;
  fs_rename (tmpPath ++ ".sha256") (POSTS_PATH ++ ".sha256").

Definition releaseIfHeld (release : option Release) : M unit :=
  match release with
  | Some r => release_lock r
  | None => ret tt
  end.

Definition writePostsOptimized (posts : list json) : M unit :=
  try_locked (lift (sortPosts posts)) (lockfile_lock POSTS_PATH LOCK_OPTIONS)
    (fun sorted =>
       let payload := stringify2 (JArr sorted) in
       writeAndRename payload ;;
       put_postsCache (JArr sorted) ;;
       bump_cacheVersion)
    (fun err =>
       console_error ("Failed to write posts: " ++ err_message err) ;;
       invalidateCache ;;
       throw err)
    releaseIfHeld.

(** The result objects [{ success: true, ... }] and
    [{ success: false, error }]. *)
Inductive Result (A : Type) : Type :=
| Success (a : A)
| Failure (error : string).
Arguments Success {A} a.
Arguments Failure {A} error.

Definition success {A} (r : Result A) : bool :=
  match r with Success _ => true | Failure _ => false end.

Record Updated := mkUpdated { oldPost : json; updatedPost : json; upd_allPosts : list json }.
Record Deleted := mkDeleted { deleted : json; del_allPosts : list json }.
Record Created := mkCreated { created : json; cre_allPosts : list json }.

(** The parsed file has to be an array for [findIndex], [push], [sort]. *)
Definition as_array (v : json) : Outcome (list json) :=
  match v with
  | JArr l => Return l
  | JNull => Throw (TypeError "Cannot read properties of null")
  | _ => Throw (TypeError "posts.findIndex is not a function")
  end.

(** [posts.findIndex((p) => p.id === postId)], [None] for -1. *)
Fixpoint findIndex (postId : json) (i : nat) (posts : list json) : Outcome (option nat) :=
  match posts with
  | [] => Return None
  | p :: posts' =>
      obind (js_get p "id") (fun v =>
      if strict_eq v postId then Return (Some i) else findIndex postId (S i) posts')
  end.

(** [{ ...p }] *)
Definition spread (p : json) : json :=
  match p with JObj o => JObj o | _ => JObj [] end.

Definition atomicUpdatePost (postId : json) (updateFn : json -> json) : M (Result Updated) :=
  try_locked (ret tt) (lockfile_lock POSTS_PATH LOCK_OPTIONS)
    (fun _ =>
       let* data := fs_readFile POSTS_PATH in
       let* parsed := JSON_parse_m (or_default data "[]") in
       let* posts := lift (as_array parsed) in
       let* idx := lift (findIndex postId 0 posts) in
       match idx with
       | None => ret (Failure "Post not found")
       | Some idx =>
           let oldPost := spread (default JNull (posts !! idx)) in
           let posts := <[idx := updateFn (default JNull (posts !! idx))]> posts in
           let* sorted := lift (sortPosts posts) in
           let payload := stringify2 (JArr sorted) in
           writeAndRename payload ;;
           put_postsCache (JArr sorted) ;;
           bump_cacheVersion ;;
           ret (Success (mkUpdated oldPost (default JNull (sorted !! idx)) sorted))
       end)
    (fun err => invalidateCache ;; ret (Failure (err_message err)))
    releaseIfHeld.

Definition atomicDeletePost (postId : json) : M (Result Deleted) :=
  try_locked (ret tt) (lockfile_lock POSTS_PATH LOCK_OPTIONS)
    (fun _ =>
       let* data := fs_readFile POSTS_PATH in
       let* parsed := JSON_parse_m (or_default data "[]") in
       let* posts := lift (as_array parsed) in
       let* idx := lift (findIndex postId 0 posts) in
       match idx with
       | None => ret (Failure "Post not found")
       | Some idx =>
           let deleted := default JNull (posts !! idx) in
           let posts := delete idx posts in
           let payload := stringify2 (JArr posts) in
           writeAndRename payload ;;
           put_postsCache (JArr posts) ;;
           bump_cacheVersion ;;
           ret (Success (mkDeleted deleted posts))
       end)
    (fun err => invalidateCache ;; ret (Failure (err_message err)))
    releaseIfHeld.

Definition atomicCreatePost (newPost : json) : M (Result Created) :=
  try_locked (ret tt) (lockfile_lock POSTS_PATH LOCK_OPTIONS)
    (fun _ =>
       let* data := fs_readFile POSTS_PATH in
       let* parsed := JSON_parse_m (or_default data "[]") in
       let* posts := lift (as_array parsed) in
       let posts := (posts ++ [newPost])%list in
       let* sorted := lift (sortPosts posts) in
       let payload := stringify2 (JArr sorted) in
       writeAndRename payload ;;
       put_postsCache (JArr sorted) ;;
       bump_cacheVersion ;;
       ret (Success (mkCreated newPost sorted)))
    (fun err => invalidateCache ;; ret (Failure (err_message err)))
    releaseIfHeld.

(** ** backend/middleware/auth.js *)

(** [sessions.get(token)] *)
Fixpoint Map_get (token : string) (m : list (string * Session)) : option Session :=
  match m with
  | [] => None
  | (t, s) :: m' => if String.eqb token t then Some s else Map_get token m'
  end.

(** [sessions.delete(token)] *)
Definition Map_delete (token : string) (m : list (string * Session)) : list (string * Session) :=
  List.filter (fun e => negb (String.eqb token (fst e))) m.

Definition get_sessions : M (list (string * Session)) := fun w => (Return (sessions w), w).
Definition put_sessions (m : list (string * Session)) : M unit :=
  fun w => (Return tt, set_sessions m w).

(** [{ token, ...obj }] *)
Definition session_record (e : string * Session) : json :=
  JObj [("token", JStr (fst e)); ("username", JStr (username (snd e)));
        ("role", JStr (role (snd e))); ("expires", JNum (expires (snd e)))].

Definition persistSessions : M unit :=
  try_catch
    (let* m := get_sessions in
     let arr := map session_record m in
     writeJSON SESSIONS_PATH (JArr arr))
    (fun err => console_error ("Failed to persist sessions " ++ err_message err)).

(** The request, as far as [requireAuth] reads it. *)
Record Request := mkRequest {
  cookie_session_token : option string;
  header_username : option string;
  header_token : option string;
  header_pass : option string
}.

Inductive AuthOutcome :=
| Next (user_username user_role : string)     (* [req.user] set, [next()] *)
| Status401 (body : string)
| PasswordPath.  (* third priority, user name and password: not part of this model *)

(** The lookup both token paths share. *)
Definition sessionLookup (token : string) : M AuthOutcome :=
  let* m := get_sessions in
  let* now := Date_now in
  match Map_get token m with
  | Some session =>
      if now <? expires session then ret (Next (username session) (role session))
      else ret (Status401 "Invalid or expired session")
  | None => ret (Status401 "Invalid or expired session")
  end.

Definition nonempty (o : option string) : option string :=
  match o with
  | Some "" | None => None
  | Some t => Some t
  end.

Definition requireAuth (req : Request) : M AuthOutcome :=
  match nonempty (cookie_session_token req) with
  | Some cookieToken => sessionLookup cookieToken
  | None =>
      match nonempty (header_token req) with
      | Some token => sessionLookup token
      | None =>
          match nonempty (header_username req), nonempty (header_pass req) with
          | Some _, Some _ => ret PasswordPath
          | _, _ => ret (Status401 "Missing authentication")
          end
      end
  end.

(** The loop of [revokeSessionsForUser] over [sessions.entries()]: the
    table that is left and the number of sessions revoked. *)
Definition revokeLoop (user : string) (entries : list (string * Session))
    (m : list (string * Session)) : list (string * Session) * Z :=
  fold_left (fun '(m, revokedCount) '(t, s) =>
               if String.eqb (username s) user then (Map_delete t m, revokedCount + 1)
               else (m, revokedCount))
            entries (m, 0).

Definition revokeSessionsForUser (user : string) : M unit :=
  let* m := get_sessions in
  let '(m', revokedCount) := revokeLoop user m m in
  put_sessions m' ;;
  console_log ("Revoked " ++ toString 10 revokedCount ++ " session(s) for user: " ++ user) ;;
  persistSessions.

Definition revokeSession (token : string) : M bool :=
  let* m := get_sessions in
  let existed := match Map_get token m with Some _ => true | None => false end in
  put_sessions (Map_delete token m) ;;
  (if existed then persistSessions else ret tt) ;;
  ret existed.

(** * Vocabulary of the properties *)

(** ** What the environment is going to do *)

(** The coming call of [fs] is not failed by the environment. *)
Definition fs_ok (w : World) : Prop :=
  match fs_faults w with
  | Some _ :: _ => False
  | _ => True
  end.

(** The lock is going to be had. *)
Definition lock_ok (w : World) : Prop :=
  match lock_faults w with
  | Some _ :: _ => False
  | _ => True
  end.

(** The release of the lock is not going to fail. *)
Definition release_ok (w : World) : Prop :=
  match release_faults w with
  | Some _ :: _ => False
  | _ => True
  end.

(** The environment injects no failure into the coming calls. *)
Definition calm (w : World) : Prop :=
  fs_faults w = [] /\ lock_faults w = [] /\ release_faults w = [].

(** [wp m w Q]: the run of [m] from [w] ends in an outcome and a world
    that satisfy [Q]. *)
Definition wp {A} (m : M A) (w : World) (Q : Outcome A -> World -> Prop) : Prop :=
  Q (fst (m w)) (snd (m w)).

(** The world after a call has consumed one entry of a plan. *)
Definition skip_fault (w : World) : World := set_fs_faults (tl (fs_faults w)) w.

Definition skip_lock_fault (w : World) : World := set_lock_faults (tl (lock_faults w)) w.

Definition skip_release_fault (w : World) : World :=
  set_release_faults (tl (release_faults w)) w.

Definition skip_random (w : World) : World := set_random (tl (random w)) w.

(** ** Documents and their digests *)

(** [path] holds [bytes] and [path.sha256] holds their SHA-256. *)
Definition stored (path bytes : string) (w : World) : Prop :=
  files w !! path = Some bytes /\ files w !! (path ++ ".sha256") = Some (sha256 bytes).

Definition digest_matches (path : string) (w : World) : Prop :=
  exists bytes, stored path bytes w.

(** ** The blocks of writeJSON *)

(** The direct write of the [catch] block of [writeJSON]. *)
Definition directWrite (filePath : string) (data : json) : M unit :=
  let payload := stringify2 data in
  let checksum := sha256 payload in
  fs_writeFile filePath payload ;;
  fs_writeFile (filePath ++ ".sha256") checksum.

(** The [catch] block of [writeJSON] and its [finally] block. *)
Definition writeJSON_catch (filePath : string) (data : json) (err : JsError) : M unit :=
  console_error ("writeJSON lock failed for " ++ path_basename filePath
                 ++ ", attempting direct write: " ++ err_message err) ;;
  try_catch (directWrite filePath data)
    (fun err2 =>
       console_error ("Direct writeJSON also failed: " ++ err_message err2) ;;
       throw err).

Definition writeJSON_finally (release : option Release) : M unit :=
  match release with
  | Some r =>
      try_catch (release_lock r)
        (fun releaseErr =>
           console_warn ("Warning: Failed to release lock (might have been stale): "
                         ++ err_message releaseErr))
  | None => ret tt
  end.

(** The locked part of [writeJSON], from the backup to the renames. *)
Definition writeJSON_locked (filePath : string) (data : json) : M unit :=
  let payload := stringify2 data in
  let checksum := sha256 payload in
  let* id := genId in
  let tmpPath := filePath ++ "." ++ id ++ ".tmp" in
  let checksumTmpPath := tmpPath ++ ".sha256" in
  try_catch (fs_copyFile filePath (filePath ++ ".backup")) (fun backupErr => ret tt) ;;
  fs_writeFile tmpPath payload ;;
  fs_writeFile checksumTmpPath checksum ;;
  try_catch
    (fs_rename tmpPath filePath ;;
     fs_rename checksumTmpPath (filePath ++ ".sha256"))
    (fun err =>
       if code_is err "EXDEV" then
         fs_copyFile tmpPath filePath ;;
         fs_copyFile checksumTmpPath (filePath ++ ".sha256") ;;
         fs_unlink tmpPath ;;
         fs_unlink checksumTmpPath
       else if code_is err "ENOENT" then
         fs_writeFile filePath payload ;;
         fs_writeFile (filePath ++ ".sha256") checksum
       else throw err).

(** ** The writers of the collection *)

(** The backup of the posts file. *)
Definition backup_of (w : World) : option string := files w !! (POSTS_PATH ++ ".backup").

(** [p.id], for an element that is not [null]. *)
Definition id_of (p : json) : option json :=
  match p with
  | JObj o => obj_get "id" o
  | _ => None
  end.

(** No element of [posts] has the id [postId]. *)
Definition absent (postId : json) (posts : list json) : Prop :=
  Forall (fun p => p <> JNull /\ strict_eq (id_of p) postId = false) posts.

(** A write to a document. *)
Inductive Write :=
| WriteJSON (filePath : string) (data : json)
| WritePosts (posts : list json)
| CreatePost (newPost : json)
| UpdatePost (postId : json) (updateFn : json -> json)
| DeletePost (postId : json).

(** The document a write is to. *)
Definition document (op : Write) : string :=
  match op with
  | WriteJSON filePath _ => filePath
  | _ => POSTS_PATH
  end.

(** The write, and whether it completed successfully. *)
Definition perform (op : Write) : M bool :=
  match op with
  | WriteJSON filePath data => writeJSON filePath data ;; ret true
  | WritePosts posts => writePostsOptimized posts ;; ret true
  | CreatePost newPost => let* r := atomicCreatePost newPost in ret (success r)
  | UpdatePost postId updateFn => let* r := atomicUpdatePost postId updateFn in ret (success r)
  | DeletePost postId => let* r := atomicDeletePost postId in ret (success r)
  end.

(** The worlds after each write of a sequence in which every write
    completes successfully. *)
Fixpoint perform_all (ops : list Write) (w : World) : option (list World) :=
  match ops with
  | [] => Some []
  | op :: ops' =>
      match perform op w with
      | (Return true, w') => option_map (cons w') (perform_all ops' w')
      | _ => None
      end
  end.

(** ** Example worlds *)

Definition demo_post (id : Z) (date time : string) : json :=
  JObj [("id", JNum id); ("date", JStr date); ("time", JStr time)].

Definition demo_world : World :=
  mkWorld ∅ [] 1767312000000 ["k3j2x9"; "a0b1c2"] [] [] [] JNull 0 [].

Definition demo_writes : list Write :=
  [ WriteJSON (DB_DIR ++ "/lists.json") (JObj [("statuses", JArr [JStr "Proposed"])]);
    WritePosts [demo_post 1 "2026-01-02" "09:00"];
    CreatePost (demo_post 2 "2026-01-01" "10:00");
    UpdatePost (JNum 1) (fun p => demo_post 1 "2026-01-01" "08:30");
    DeletePost (JNum 2) ].

(** Every write of the sequence completes successfully. *)
Definition completes (ops : list Write) (w : World) : bool :=
  match perform_all ops w with
  | Some _ => true
  | None => false
  end.

(** A world whose disk holds the collection of one post. *)
Definition one_post_world : World :=
  snd (writePostsOptimized [demo_post 1 "2026-01-02" "09:00"] demo_world).

(** A write that failed: [writePostsOptimized] threw (the release of the
    lock apart), or a mutator returned a failure that is not its
    not-found result. *)
Inductive failed_write : World -> World -> Prop :=
| failed_writePosts posts w e w' :
    release_ok w ->
    writePostsOptimized posts w = (Throw e, w') -> failed_write w w'
| failed_create newPost w msg w' :
    atomicCreatePost newPost w = (Return (Failure msg), w') -> failed_write w w'
| failed_update postId updateFn w msg w' :
    atomicUpdatePost postId updateFn w = (Return (Failure msg), w') ->
    msg <> "Post not found" -> failed_write w w'
| failed_delete postId w msg w' :
    atomicDeletePost postId w = (Return (Failure msg), w') ->
    msg <> "Post not found" -> failed_write w w'.

Definition ENOSPC : JsError := mkError (Some "ENOSPC") "ENOSPC: no space left on device, write".

(** A world with a cached snapshot whose disk accepts no more bytes. *)
Definition full_disk_world : World :=
  mkWorld {[ POSTS_PATH := "[]" ]} [] 1767312000000 [] [Some ENOSPC] [] [] (JArr []) 1 [].

Definition lists_path : string := DB_DIR ++ "/lists.json".

Definition lock_failure_line (filePath : string) (e : JsError) : Level * string :=
  (LError, "writeJSON lock failed for " ++ path_basename filePath
           ++ ", attempting direct write: " ++ err_message e).

Definition ELOCKED : JsError := mkError (Some "ELOCKED") "Lock file is already being held".

(** The lock is held elsewhere; the disk works. *)
Definition contended_world : World :=
  mkWorld ∅ [] 1767312000000 [] [] [Some ELOCKED] [] JNull 0 [].

(** The lock is held elsewhere and the disk is full. *)
Definition contended_full_world : World :=
  mkWorld ∅ [] 1767312000000 [] [None; Some ENOSPC] [Some ELOCKED] [] JNull 0 [].

(** ** Reading *)

Definition mismatch_line (filePath : string) : Level * string :=
  (LError, "CHECKSUM MISMATCH for " ++ filePath ++ "! Data may be corrupted.").

(** The digest file is missing, or it holds the digest of [data]. *)
Definition digest_agrees (filePath data : string) (w : World) : Prop :=
  match files w !! (filePath ++ ".sha256") with
  | None => True
  | Some digest => trim digest = sha256 data
  end.

(** A document whose digest file was flipped, with its backup. *)
Definition flipped_digest_world : World :=
  mkWorld {[ lists_path := "[2]";
             lists_path ++ ".sha256" := "00" ++ sha256 "[2]";
             lists_path ++ ".backup" := "[1]" ]}
          [] 1767312000000 [] [] [] [] JNull 0 [].

(** A primary that does not parse, without a digest file, with a backup. *)
Definition unparseable_world : World :=
  mkWorld {[ lists_path := "[2";
             lists_path ++ ".backup" := "[1]" ]}
          [] 1767312000000 [] [] [] [] JNull 0 [].

Definition EACCES : JsError := mkError (Some "EACCES") "EACCES: permission denied, open".

(** ** Sessions *)

(** One turn of the loop, on the table alone. *)
Definition revokeOne (user : string) (m : list (string * Session)) (e : string * Session)
  : list (string * Session) :=
  if String.eqb (username (snd e)) user then Map_delete (fst e) m else m.

(** [m] leaves the session table as it is. *)
Definition keeps_sessions {A} (m : M A) : Prop :=
  forall w, sessions (snd (m w)) = sessions w.

Definition session_mirror (w : World) : string :=
  stringify2 (JArr (map session_record (sessions w))).

(** The outcome of a session lookup. *)
Definition rejected : Outcome AuthOutcome := Return (Status401 "Invalid or expired session").

(** Alice is logged in twice, Bob once. *)
Definition sessions_world : World :=
  mkWorld ∅ [] 1767312000000 ["k3j2x9"] [] [] [] JNull 0
          [ ("1f0e", mkSession "alice" "admin" 1767398400000);
            ("77aa", mkSession "bob" "user" 1767398400000);
            ("c3d4", mkSession "alice" "admin" 1767398400000) ].

(** ** The order of the posts *)

(** The key the comparator sorts by: the time stamp of the date and the
    minutes of the day, a missing time counting as 00:00.  It is defined
    for a post whose date and time the comparator can read as numbers. *)
Definition sortKey (p : json) : option (Z * Z) :=
  match js_get p "date", minutesOfDay p with
  | Return d, Return (Some t) =>
      match getTime d with
      | Some ms => Some (ms, t)
      | None => None
      end
  | _, _ => None
  end.

Definition well_formed (p : json) : Prop := exists k, sortKey p = Some k.

Definition key_le (a b : Z * Z) : Prop := fst a < fst b \/ (fst a = fst b /\ snd a <= snd b).

Definition key_lt (a b : Z * Z) : Prop := fst a < fst b \/ (fst a = fst b /\ snd a < snd b).

(** [a] may stand before [b] in the persisted order. *)
Definition before (a b : json) : Prop :=
  exists ka kb, sortKey a = Some ka /\ sortKey b = Some kb /\ key_le ka kb.

Definition same_key (k : Z * Z) (p : json) : bool :=
  match sortKey p with
  | Some k' => (fst k' =? fst k) && (snd k' =? snd k)
  | None => false
  end.

(** [sorted] is [input] in ascending order of the key, the posts of
    equal key in the order they have in [input]. *)
Definition key_sorted (input sorted : list json) : Prop :=
  Permutation input sorted /\
  StronglySorted before sorted /\
  (forall k, List.filter (same_key k) sorted = List.filter (same_key k) input).

(** The collection a writer finds on disk. *)
Definition on_disk (posts : list json) (w : World) : Prop :=
  exists data, files w !! POSTS_PATH = Some data /\
               JSON_parse (or_default data "[]") = Some (JArr posts).

(** The list a sorting writer sorts. *)
Inductive sorts : Write -> World -> list json -> Prop :=
| sorts_write posts w : sorts (WritePosts posts) w posts
| sorts_create newPost w posts :
    on_disk posts w -> sorts (CreatePost newPost) w (posts ++ [newPost])
| sorts_update postId updateFn w posts idx :
    on_disk posts w -> findIndex postId 0 posts = Return (Some idx) ->
    sorts (UpdatePost postId updateFn) w
          (<[idx := updateFn (default JNull (posts !! idx))]> posts).

(** The posts file holds the list. *)
Definition persisted (posts : list json) (w : World) : Prop :=
  files w !! POSTS_PATH = Some (stringify2 (JArr posts)).

(** An all-day post and a timed post at 00:00 of the same date. *)
Definition midnight_post : json :=
  JObj [("id", JNum 1); ("date", JStr "2026-01-02"); ("time", JStr "00:00");
        ("isAllDay", JBool false)].

Definition allday_post : json :=
  JObj [("id", JNum 2); ("date", JStr "2026-01-02"); ("isAllDay", JBool true)].

(** ** The log *)

(** The id [genId] makes in [w]. *)
Definition generated_id (w : World) : string :=
  toString 36 (clock w) ++ "-" ++ hd "" (random w).

(** The entry of a route: it brings its own time. *)
Definition route_entry : object :=
  [("type", JStr "post"); ("action", JStr "create"); ("user", JStr "alice");
   ("time", JNum 1767311999000); ("item", JStr "mjw3wv6g-q7w8e9")].

(** * Properties *)

(** ** Paths built by appending a suffix *)

Lemma append_nil_l (s : string) : "" ++ s = s.
Proof. reflexivity. Qed.

Lemma append_cons (c : ascii) (s t : string) : String c s ++ t = String c (s ++ t).
Proof. reflexivity. Qed.

Lemma append_nil_r (s : string) : s ++ "" = s.
Proof. induction s as [|c s IH]; [reflexivity|]. rewrite append_cons, IH. reflexivity. Qed.

Lemma append_assoc (a b c : string) : (a ++ b) ++ c = a ++ (b ++ c).
Proof.
  induction a as [|x a IH]; [reflexivity|].
  rewrite !append_cons, IH. reflexivity.
Qed.

Lemma append_inv_head (p a b : string) : p ++ a = p ++ b -> a = b.
Proof.
  induction p as [|x p IH]; [trivial|].
  rewrite !append_cons. intros H. injection H as H. auto.
Qed.

Lemma length_append (a b : string) :
  String.length (a ++ b) = (String.length a + String.length b)%nat.
Proof.
  induction a as [|x a IH]; [reflexivity|].
  rewrite append_cons. simpl. rewrite IH. reflexivity.
Qed.

(** Two paths with the same stem differ as soon as their suffixes do. *)
Lemma suffix_ne (p a b : string) : a <> b -> p ++ a <> p ++ b.
Proof. intros Hab H. apply Hab. eapply append_inv_head, H. Qed.

Lemma stem_ne_l (p a : string) : a <> "" -> p <> p ++ a.
Proof.
  intros Ha H. rewrite <- (append_nil_r p) in H at 1.
  apply append_inv_head in H. congruence.
Qed.

Lemma self_append_ne (a b : string) : b <> "" -> a <> a ++ b.
Proof. apply stem_ne_l. Qed.

Ltac suffix_clash H id :=
  destruct id as [|? [|? [|? [|? [|? [|? [|? id]]]]]]];
  rewrite ?append_nil_l, ?append_cons in H; discriminate H.

Lemma tmp_not_backup (id : string) : "." ++ id ++ ".tmp" <> ".backup".
Proof. intros H. suffix_clash H id. Qed.

Lemma tmp_not_digest (id : string) : "." ++ id ++ ".tmp" <> ".sha256".
Proof. intros H. suffix_clash H id. Qed.

Lemma tmpDigest_not_backup (id : string) : "." ++ id ++ ".tmp" ++ ".sha256" <> ".backup".
Proof. intros H. suffix_clash H id. Qed.

Lemma tmpDigest_not_digest (id : string) : "." ++ id ++ ".tmp" ++ ".sha256" <> ".sha256".
Proof.
  intros H. apply (f_equal String.length) in H.
  rewrite !length_append in H. simpl in H. lia.
Qed.

(** The five paths of [writeJSON] are pairwise distinct. *)
Section WriteJSONPaths.
Variables (p id : string).
Let backup := p ++ ".backup".
Let digest := p ++ ".sha256".
Let tmp := p ++ "." ++ id ++ ".tmp".
Let tmpDigest := tmp ++ ".sha256".

Lemma writeJSON_paths :
  p <> backup /\ p <> digest /\ p <> tmp /\ p <> tmpDigest /\
  backup <> digest /\ backup <> tmp /\ backup <> tmpDigest /\
  digest <> tmp /\ digest <> tmpDigest /\ tmp <> tmpDigest.
Proof.
  unfold tmpDigest, tmp, backup, digest. rewrite !append_assoc.
  repeat split;
    try (apply stem_ne_l; discriminate);
    try (apply suffix_ne; first [ discriminate
                                | apply not_eq_sym, tmp_not_backup
                                | apply not_eq_sym, tmp_not_digest
                                | apply not_eq_sym, tmpDigest_not_backup
                                | apply not_eq_sym, tmpDigest_not_digest ]).
  rewrite <- !append_assoc. apply stem_ne_l. discriminate.
Qed.
End WriteJSONPaths.

(** The four paths of the posts writers are pairwise distinct. *)
Lemma cache_paths (p n : string) :
  let tmp := p ++ ".tmp." ++ n in
  p <> p ++ ".sha256" /\ p <> tmp /\ p <> tmp ++ ".sha256" /\
  p ++ ".sha256" <> tmp /\ p ++ ".sha256" <> tmp ++ ".sha256" /\ tmp <> tmp ++ ".sha256" /\
  p ++ ".backup" <> p /\ p ++ ".backup" <> p ++ ".sha256" /\
  p ++ ".backup" <> tmp /\ p ++ ".backup" <> tmp ++ ".sha256".
Proof.
  cbv zeta. rewrite !append_assoc.
  repeat split;
    try (apply stem_ne_l; discriminate);
    try (apply not_eq_sym, stem_ne_l; discriminate);
    try (apply suffix_ne; discriminate).
  rewrite <- !append_assoc. apply stem_ne_l. discriminate.
Qed.

(** The same facts one by one, for the lookups in the disk. *)
Lemma ne_doc_backup (p : string) : p <> p ++ ".backup".
Proof. apply (writeJSON_paths p ""). Qed.
Lemma ne_doc_digest (p : string) : p <> p ++ ".sha256".
Proof. apply (writeJSON_paths p ""). Qed.
Lemma ne_doc_tmp (p id : string) : p <> p ++ "." ++ id ++ ".tmp".
Proof. apply (writeJSON_paths p id). Qed.
Lemma ne_doc_tmpDigest (p id : string) : p <> (p ++ "." ++ id ++ ".tmp") ++ ".sha256".
Proof. apply (writeJSON_paths p id). Qed.
Lemma ne_backup_digest (p : string) : p ++ ".backup" <> p ++ ".sha256".
Proof. apply (writeJSON_paths p ""). Qed.
Lemma ne_backup_tmp (p id : string) : p ++ ".backup" <> p ++ "." ++ id ++ ".tmp".
Proof. apply (writeJSON_paths p id). Qed.
Lemma ne_backup_tmpDigest (p id : string) :
  p ++ ".backup" <> (p ++ "." ++ id ++ ".tmp") ++ ".sha256".
Proof. apply (writeJSON_paths p id). Qed.
Lemma ne_digest_tmp (p id : string) : p ++ ".sha256" <> p ++ "." ++ id ++ ".tmp".
Proof. apply (writeJSON_paths p id). Qed.
Lemma ne_digest_tmpDigest (p id : string) :
  p ++ ".sha256" <> (p ++ "." ++ id ++ ".tmp") ++ ".sha256".
Proof. apply (writeJSON_paths p id). Qed.
Lemma ne_tmp_tmpDigest (p id : string) :
  p ++ "." ++ id ++ ".tmp" <> (p ++ "." ++ id ++ ".tmp") ++ ".sha256".
Proof. apply (writeJSON_paths p id). Qed.

Lemma ne_doc_ctmp (p n : string) : p <> p ++ ".tmp." ++ n.
Proof. apply (cache_paths p n). Qed.
Lemma ne_doc_ctmpDigest (p n : string) : p <> (p ++ ".tmp." ++ n) ++ ".sha256".
Proof. apply (cache_paths p n). Qed.
Lemma ne_digest_ctmp (p n : string) : p ++ ".sha256" <> p ++ ".tmp." ++ n.
Proof. apply (cache_paths p n). Qed.
Lemma ne_digest_ctmpDigest (p n : string) :
  p ++ ".sha256" <> (p ++ ".tmp." ++ n) ++ ".sha256".
Proof. apply (cache_paths p n). Qed.
Lemma ne_ctmp_ctmpDigest (p n : string) :
  p ++ ".tmp." ++ n <> (p ++ ".tmp." ++ n) ++ ".sha256".
Proof. apply (cache_paths p n). Qed.
Lemma ne_backup_ctmp (p n : string) : p ++ ".backup" <> p ++ ".tmp." ++ n.
Proof. apply (cache_paths p n). Qed.
Lemma ne_backup_ctmpDigest (p n : string) :
  p ++ ".backup" <> (p ++ ".tmp." ++ n) ++ ".sha256".
Proof. apply (cache_paths p n). Qed.

Ltac path_ne :=
  first [ apply ne_doc_backup | apply ne_doc_digest | apply ne_doc_tmp
        | apply ne_doc_tmpDigest | apply ne_backup_digest | apply ne_backup_tmp
        | apply ne_backup_tmpDigest | apply ne_digest_tmp | apply ne_digest_tmpDigest
        | apply ne_tmp_tmpDigest | apply ne_doc_ctmp | apply ne_doc_ctmpDigest
        | apply ne_digest_ctmp | apply ne_digest_ctmpDigest | apply ne_ctmp_ctmpDigest
        | apply ne_backup_ctmp | apply ne_backup_ctmpDigest ].

(** ** JSON text is one line *)

Lemma json_induction (P : json -> Prop) :
  P JNull -> (forall b, P (JBool b)) -> (forall n, P (JNum n)) -> (forall s, P (JStr s)) ->
  (forall l, Forall P l -> P (JArr l)) ->
  (forall kvs, Forall (fun kv => P (snd kv)) kvs -> P (JObj kvs)) ->
  forall v, P v.
Proof.
  intros Hnull Hbool Hnum Hstr Harr Hobj.
  fix IH 1. intros [|b|n|s|l|kvs].
  - exact Hnull.
  - apply Hbool.
  - apply Hnum.
  - apply Hstr.
  - apply Harr. induction l as [|x l IHl]; constructor; [apply IH|exact IHl].
  - apply Hobj. induction kvs as [|[k x] kvs IHl]; constructor; [apply IH|exact IHl].
Qed.

Lemma count_char_append c a b :
  count_char c (a ++ b) = (count_char c a + count_char c b)%nat.
Proof.
  induction a as [|x a IH]; [reflexivity|].
  rewrite append_cons. simpl. rewrite IH. lia.
Qed.

Lemma digit_char_not_LF d : 0 <= d < 36 -> Ascii.eqb LF (digit_char d) = false.
Proof.
  intros H.
  assert (Hd : exists n : nat, (n < 36)%nat /\ d = Z.of_nat n) by (exists (Z.to_nat d); lia).
  destruct Hd as (n & Hn & ->).
  do 36 (destruct n as [|n]; [reflexivity|]). lia.
Qed.

Lemma to_radix_no_LF fuel n acc :
  0 <= n -> count_char LF acc = O -> count_char LF (to_radix fuel 10 n acc) = O.
Proof.
  revert n acc. induction fuel as [|fuel IH]; intros n acc Hn Hacc; cbn [to_radix];
    [exact Hacc|].
  assert (Hd : count_char LF (String (digit_char (n mod 10)) acc) = O).
  { cbn [count_char]. rewrite digit_char_not_LF; [exact Hacc|].
    pose proof (Z.mod_pos_bound n 10). lia. }
  destruct (n <? 10); [exact Hd|].
  apply IH; [|exact Hd]. apply Z.div_pos; lia.
Qed.

Lemma toString10_no_LF n : count_char LF (toString 10 n) = O.
Proof.
  unfold toString. destruct (n <? 0) eqn:E.
  - apply Z.ltb_lt in E. rewrite count_char_append.
    change (count_char LF "-") with O. rewrite Nat.add_0_l.
    apply to_radix_no_LF; [lia|reflexivity].
  - apply Z.ltb_ge in E. apply to_radix_no_LF; [lia|reflexivity].
Qed.

Lemma escape_char_no_LF c : count_char LF (escape_char c) = O.
Proof. destruct c as [[] [] [] [] [] [] [] []]; reflexivity. Qed.

Lemma escape_no_LF s : count_char LF (escape s) = O.
Proof.
  induction s as [|c s IH]; [reflexivity|].
  simpl. rewrite count_char_append, escape_char_no_LF, IH. reflexivity.
Qed.

Lemma quote_no_LF s : count_char LF (quote s) = O.
Proof.
  unfold quote. simpl. rewrite count_char_append, escape_no_LF. reflexivity.
Qed.

(** The compact form of a value has no line feed in it. *)
Lemma stringify_no_LF v : count_char LF (stringify v) = O.
Proof.
  induction v as [|b|n|s|l IH|kvs IH] using json_induction.
  - reflexivity.
  - destruct b; reflexivity.
  - apply toString10_no_LF.
  - apply quote_no_LF.
  - simpl. rewrite !count_char_append. simpl.
    induction IH as [|x l Hx _ IHl]; [reflexivity|].
    rewrite count_char_append, Hx. destruct l as [|y l]; [reflexivity|].
    rewrite count_char_append. simpl. simpl in IHl. rewrite Nat.add_0_r in IHl.
    rewrite Nat.add_0_r. exact IHl.
  - simpl. rewrite !count_char_append. simpl.
    induction IH as [|[k x] kvs Hx _ IHl]; [reflexivity|].
    simpl in Hx. rewrite !count_char_append, quote_no_LF, Hx. simpl.
    destruct kvs as [|y kvs]; [reflexivity|].
    rewrite count_char_append. simpl. simpl in IHl. rewrite Nat.add_0_r in IHl.
    rewrite Nat.add_0_r. exact IHl.
Qed.

(** ** Object.assign *)

Lemma obj_get_set k k' v o :
  obj_get k (obj_set k' v o) = if String.eqb k k' then Some v else obj_get k o.
Proof.
  induction o as [|[k0 v0] o IH]; simpl.
  - destruct (String.eqb k k'); reflexivity.
  - destruct (String.eqb k' k0) eqn:E0; simpl.
    + apply String.eqb_eq in E0. subst k0. destruct (String.eqb k k'); reflexivity.
    + destruct (String.eqb k k0) eqn:E1.
      * apply String.eqb_eq in E1. subst k0.
        rewrite String.eqb_sym in E0. rewrite E0. reflexivity.
      * exact IH.
Qed.

(** An own property of the source wins over the target's. *)
Lemma obj_get_assign k target source :
  NoDup (map fst source) ->
  obj_get k (Object_assign target source) =
  match obj_get k source with
  | Some v => Some v
  | None => obj_get k target
  end.
Proof.
  unfold Object_assign. intros Hnd. revert target.
  induction source as [|[k0 v0] source IH]; intros target; [reflexivity|].
  simpl in *. apply NoDup_cons in Hnd as [Hk0 Hnd]. rewrite (IH Hnd).
  rewrite obj_get_set. destruct (String.eqb k k0) eqn:E.
  - apply String.eqb_eq in E. subst k0.
    assert (obj_get k source = None) as ->; [|reflexivity].
    clear -Hk0. induction source as [|[k1 v1] source IH]; [reflexivity|].
    simpl in *. destruct (String.eqb k k1) eqn:E.
    + apply String.eqb_eq in E. subst. exfalso. apply Hk0. left.
    + apply IH. intros H. apply Hk0. right. exact H.
  - reflexivity.
Qed.

#[local] Opaque sha256 stringify2 toString path_dirname path_basename.

(** ** Running a call: the outcome and world it leads to *)

Lemma wp_run {A} (m : M A) w Q r w' : wp m w Q -> m w = (r, w') -> Q r w'.
Proof. unfold wp. intros H E. rewrite E in H. exact H. Qed.

Lemma wp_conseq {A} (m : M A) w (Q Q' : Outcome A -> World -> Prop) :
  wp m w Q -> (forall r w', Q r w' -> Q' r w') -> wp m w Q'.
Proof. unfold wp. auto. Qed.

Lemma wp_ret {A} (a : A) w Q : Q (Return a) w -> wp (ret a) w Q.
Proof. trivial. Qed.

Lemma wp_throw {A} (e : JsError) w (Q : Outcome A -> World -> Prop) :
  Q (Throw e) w -> wp (throw e) w Q.
Proof. trivial. Qed.

Lemma wp_lift {A} (o : Outcome A) w Q : Q o w -> wp (lift o) w Q.
Proof. trivial. Qed.

Lemma wp_bind {A B} (m : M A) (k : A -> M B) w Q :
  wp m w (fun r w1 => match r with
                      | Return a => wp (k a) w1 Q
                      | Throw e => Q (Throw e) w1
                      end) ->
  wp (bind m k) w Q.
Proof. unfold wp, bind. destruct (m w) as [[a|e] w1]; trivial. Qed.

Lemma wp_try_catch {A} (body : M A) handler w Q :
  wp body w (fun r w1 => match r with
                         | Return a => Q (Return a) w1
                         | Throw e => wp (handler e) w1 Q
                         end) ->
  wp (try_catch body handler) w Q.
Proof. unfold wp, try_catch. destruct (body w) as [[a|e] w1]; trivial. Qed.

Lemma wp_finally {A} (body : M A) fin w Q :
  wp body w (fun r w1 =>
     wp fin w1 (fun r2 w2 => match r2 with
                             | Return _ => Q r w2
                             | Throw e => Q (Throw e) w2
                             end)) ->
  wp (finally body fin) w Q.
Proof.
  unfold wp, finally. destruct (body w) as [r w1]. simpl.
  destruct (fin w1) as [[u|e] w2]; trivial.
Qed.

Lemma wp_try_locked {A B} (pre : M B) lock (body : B -> M A) handler fin w Q :
  wp pre w (fun r w1 =>
    match r with
    | Throw e => wp (finally (handler e) (fin None)) w1 Q
    | Return b =>
        wp lock w1 (fun r2 w2 =>
          match r2 with
          | Throw e => wp (finally (handler e) (fin None)) w2 Q
          | Return rel => wp (finally (try_catch (body b) handler) (fin (Some rel))) w2 Q
          end)
    end) ->
  wp (try_locked pre lock body handler fin) w Q.
Proof.
  unfold wp, try_locked. destruct (pre w) as [[b|e] w1]; trivial.
  simpl. destruct (lock w1) as [[rel|e] w2]; trivial.
Qed.

Lemma fs_call_eq {A} (natural : M A) w :
  fs_call natural w =
  match fs_faults w with
  | Some e :: _ => (Throw e, skip_fault w)
  | _ => natural (skip_fault w)
  end.
Proof.
  unfold fs_call, skip_fault. destruct w as [f c k r ff lf rf pc cv ss]; simpl.
  destruct ff as [|[e|] ff]; reflexivity.
Qed.

Lemma wp_fs_call {A} (natural : M A) w Q :
  (forall e plan, fs_faults w = Some e :: plan -> Q (Throw e) (skip_fault w)) ->
  (fs_ok w -> wp natural (skip_fault w) Q) ->
  wp (fs_call natural) w Q.
Proof.
  unfold wp, fs_ok. rewrite fs_call_eq. intros Hf Hn.
  destruct (fs_faults w) as [|[e|] plan] eqn:E; simpl; eauto.
Qed.

Lemma wp_fs_mkdir dir w Q :
  (forall e plan, fs_faults w = Some e :: plan -> Q (Throw e) (skip_fault w)) ->
  (fs_ok w -> Q (Return tt) (skip_fault w)) ->
  wp (fs_mkdir dir) w Q.
Proof. intros. apply wp_fs_call; trivial. Qed.

Lemma wp_fs_readFile p w Q :
  (forall e plan, fs_faults w = Some e :: plan -> Q (Throw e) (skip_fault w)) ->
  (fs_ok w -> files w !! p = None -> Q (Throw (ENOENT p)) (skip_fault w)) ->
  (forall s, fs_ok w -> files w !! p = Some s -> Q (Return s) (skip_fault w)) ->
  wp (fs_readFile p) w Q.
Proof.
  intros Hf Hn Hs. apply wp_fs_call; trivial. intros Hok. unfold wp.
  change (files (skip_fault w)) with (files w).
  destruct (files w !! p) eqn:E; simpl; auto.
Qed.

Lemma wp_fs_access p w Q :
  (forall e plan, fs_faults w = Some e :: plan -> Q (Throw e) (skip_fault w)) ->
  (fs_ok w -> files w !! p = None -> Q (Throw (ENOENT p)) (skip_fault w)) ->
  (forall s, fs_ok w -> files w !! p = Some s -> Q (Return tt) (skip_fault w)) ->
  wp (fs_access p) w Q.
Proof.
  intros Hf Hn Hs. apply wp_fs_call; trivial. intros Hok. unfold wp.
  change (files (skip_fault w)) with (files w).
  destruct (files w !! p) eqn:E; simpl; eauto.
Qed.

Lemma wp_fs_writeFile p s w Q :
  (forall e plan, fs_faults w = Some e :: plan -> Q (Throw e) (skip_fault w)) ->
  (fs_ok w -> Q (Return tt) (set_files (<[p := s]> (files w)) (skip_fault w))) ->
  wp (fs_writeFile p s) w Q.
Proof. intros. apply wp_fs_call; trivial. Qed.

Lemma wp_fs_appendFile p s w Q :
  (forall e plan, fs_faults w = Some e :: plan -> Q (Throw e) (skip_fault w)) ->
  (fs_ok w ->
   Q (Return tt) (set_files (<[p := default "" (files w !! p) ++ s]> (files w)) (skip_fault w))) ->
  wp (fs_appendFile p s) w Q.
Proof. intros. apply wp_fs_call; trivial. Qed.

Lemma wp_fs_copyFile src dst w Q :
  (forall e plan, fs_faults w = Some e :: plan -> Q (Throw e) (skip_fault w)) ->
  (fs_ok w -> files w !! src = None -> Q (Throw (ENOENT src)) (skip_fault w)) ->
  (forall s, fs_ok w -> files w !! src = Some s ->
             Q (Return tt) (set_files (<[dst := s]> (files w)) (skip_fault w))) ->
  wp (fs_copyFile src dst) w Q.
Proof.
  intros Hf Hn Hs. apply wp_fs_call; trivial. intros Hok. unfold wp.
  change (files (skip_fault w)) with (files w).
  destruct (files w !! src) eqn:E; simpl; auto.
Qed.

Lemma wp_fs_rename src dst w Q :
  (forall e plan, fs_faults w = Some e :: plan -> Q (Throw e) (skip_fault w)) ->
  (fs_ok w -> files w !! src = None -> Q (Throw (ENOENT src)) (skip_fault w)) ->
  (forall s, fs_ok w -> files w !! src = Some s ->
             Q (Return tt) (set_files (<[dst := s]> (delete src (files w))) (skip_fault w))) ->
  wp (fs_rename src dst) w Q.
Proof.
  intros Hf Hn Hs. apply wp_fs_call; trivial. intros Hok. unfold wp.
  change (files (skip_fault w)) with (files w).
  destruct (files w !! src) eqn:E; simpl; auto.
Qed.

Lemma wp_fs_unlink p w Q :
  (forall e plan, fs_faults w = Some e :: plan -> Q (Throw e) (skip_fault w)) ->
  (fs_ok w -> files w !! p = None -> Q (Throw (ENOENT p)) (skip_fault w)) ->
  (forall s, fs_ok w -> files w !! p = Some s ->
             Q (Return tt) (set_files (delete p (files w)) (skip_fault w))) ->
  wp (fs_unlink p) w Q.
Proof.
  intros Hf Hn Hs. apply wp_fs_call; trivial. intros Hok. unfold wp.
  change (files (skip_fault w)) with (files w).
  destruct (files w !! p) eqn:E; simpl; eauto.
Qed.

Lemma lockfile_lock_eq p o w :
  lockfile_lock p o w =
  match lock_faults w with
  | Some e :: _ => (Throw e, skip_lock_fault w)
  | _ => (Return p, skip_lock_fault w)
  end.
Proof.
  unfold lockfile_lock, skip_lock_fault. destruct w as [f c k r ff lf rf pc cv ss]; simpl.
  destruct lf as [|[e|] lf]; reflexivity.
Qed.

Lemma wp_lockfile_lock p o w Q :
  (forall e plan, lock_faults w = Some e :: plan -> Q (Throw e) (skip_lock_fault w)) ->
  (lock_ok w -> Q (Return p) (skip_lock_fault w)) ->
  wp (lockfile_lock p o) w Q.
Proof.
  unfold wp, lock_ok. rewrite lockfile_lock_eq. intros Hf Hn.
  destruct (lock_faults w) as [|[e|] plan] eqn:E; simpl; eauto.
Qed.

Lemma release_lock_eq r w :
  release_lock r w =
  match release_faults w with
  | Some e :: _ => (Throw e, skip_release_fault w)
  | _ => (Return tt, skip_release_fault w)
  end.
Proof.
  unfold release_lock, skip_release_fault. destruct w as [f c k rn ff lf rf pc cv ss]; simpl.
  destruct rf as [|[e|] rf]; reflexivity.
Qed.

Lemma wp_release_lock r w Q :
  (forall e plan, release_faults w = Some e :: plan -> Q (Throw e) (skip_release_fault w)) ->
  (release_ok w -> Q (Return tt) (skip_release_fault w)) ->
  wp (release_lock r) w Q.
Proof.
  unfold wp, release_ok. rewrite release_lock_eq. intros Hf Hn.
  destruct (release_faults w) as [|[e|] plan] eqn:E; simpl; eauto.
Qed.

Lemma wp_console_print l msg w Q :
  Q (Return tt) (set_console (console w ++ [(l, msg)])%list w) ->
  wp (console_print l msg) w Q.
Proof. trivial. Qed.

Lemma wp_Date_now w Q : Q (Return (clock w)) w -> wp Date_now w Q.
Proof. trivial. Qed.

Lemma genId_eq w :
  genId w = (Return (toString 36 (clock w) ++ "-" ++ hd "" (random w)), skip_random w).
Proof.
  unfold genId, bind, Date_now, random_suffix, ret, skip_random.
  destruct w as [f c k rn ff lf rf pc cv ss]; simpl.
  destruct rn; reflexivity.
Qed.

Lemma wp_genId w Q :
  (forall id, id = toString 36 (clock w) ++ "-" ++ hd "" (random w) ->
              Q (Return id) (skip_random w)) ->
  wp genId w Q.
Proof. unfold wp. rewrite genId_eq. intros H. apply H. reflexivity. Qed.

Lemma wp_JSON_parse_m s w Q :
  (JSON_parse s = None -> Q (Throw (SyntaxError "Unexpected token in JSON")) w) ->
  (forall v, JSON_parse s = Some v -> Q (Return v) w) ->
  wp (JSON_parse_m s) w Q.
Proof.
  unfold wp, JSON_parse_m. intros Hn Hs. destruct (JSON_parse s); simpl; auto.
Qed.

Lemma wp_put_postsCache c w Q :
  Q (Return tt) (set_postsCache c w) -> wp (put_postsCache c) w Q.
Proof. trivial. Qed.

Lemma wp_bump_cacheVersion w Q :
  Q (Return tt) (set_cacheVersion (cacheVersion w + 1) w) -> wp bump_cacheVersion w Q.
Proof. trivial. Qed.

Lemma wp_get_postsCache w Q : Q (Return (postsCache w)) w -> wp get_postsCache w Q.
Proof. trivial. Qed.

Lemma wp_invalidateCache w Q :
  Q (Return tt) (set_cacheVersion (cacheVersion w + 1) (set_postsCache JNull w)) ->
  wp invalidateCache w Q.
Proof. trivial. Qed.

(** One step of a run: the rule of the construct at the head.  [ok]
    says what to do with the premise that the environment lets the call
    take its natural course: keep it or drop it. *)
Ltac wp_step_with ok onfault :=
  cbv beta iota;
  let fault := (let Hf := fresh "Hfault" in intros ? ? Hf; onfault Hf) in
  lazymatch goal with
  | |- wp (bind _ _) _ _ => apply wp_bind
  | |- wp (ret _) _ _ => apply wp_ret
  | |- wp (throw _) _ _ => apply wp_throw
  | |- wp (lift _) _ _ => apply wp_lift
  | |- wp (try_catch _ _) _ _ => apply wp_try_catch
  | |- wp (finally _ _) _ _ => apply wp_finally
  | |- wp (try_locked _ _ _ _ _) _ _ => apply wp_try_locked
  | |- wp (fs_mkdir _) _ _ => apply wp_fs_mkdir; [fault|ok]
  | |- wp (fs_writeFile _ _) _ _ => apply wp_fs_writeFile; [fault|ok]
  | |- wp (fs_appendFile _ _) _ _ => apply wp_fs_appendFile; [fault|ok]
  | |- wp (fs_readFile _) _ _ =>
      apply wp_fs_readFile; [fault|ok; intros ?|intros ?; ok; intros ?]
  | |- wp (fs_access _) _ _ =>
      apply wp_fs_access; [fault|ok; intros ?|intros ?; ok; intros ?]
  | |- wp (fs_copyFile _ _) _ _ =>
      apply wp_fs_copyFile; [fault|ok; intros ?|intros ?; ok; intros ?]
  | |- wp (fs_rename _ _) _ _ =>
      apply wp_fs_rename; [fault|ok; intros ?|intros ?; ok; intros ?]
  | |- wp (fs_unlink _) _ _ =>
      apply wp_fs_unlink; [fault|ok; intros ?|intros ?; ok; intros ?]
  | |- wp (lockfile_lock _ _) _ _ => apply wp_lockfile_lock; [fault|ok]
  | |- wp (release_lock _) _ _ => apply wp_release_lock; [fault|ok]
  | |- wp (releaseIfHeld None) _ _ => apply wp_ret
  | |- wp (releaseIfHeld (Some _)) _ _ => apply wp_release_lock; [fault|ok]
  | |- wp (console_print _ _) _ _ => apply wp_console_print
  | |- wp (console_error _) _ _ => apply wp_console_print
  | |- wp (console_warn _) _ _ => apply wp_console_print
  | |- wp (console_log _) _ _ => apply wp_console_print
  | |- wp Date_now _ _ => apply wp_Date_now
  | |- wp genId _ _ => apply wp_genId; intros ? ?
  | |- wp (JSON_parse_m _) _ _ => apply wp_JSON_parse_m; [intros ?|intros ? ?]
  | |- wp (put_postsCache _) _ _ => apply wp_put_postsCache
  | |- wp bump_cacheVersion _ _ => apply wp_bump_cacheVersion
  | |- wp get_postsCache _ _ => apply wp_get_postsCache
  | |- wp invalidateCache _ _ => apply wp_invalidateCache
  | |- wp (if ?b then _ else _) _ _ => destruct b eqn:?
  | |- wp (match ?o with Some _ => _ | None => _ end) _ _ => destruct o eqn:?
  | |- match ?o with Return _ => _ | Throw _ => _ end => destruct o eqn:?
  end.

(** In every environment. *)
Ltac wp_step := wp_step_with ltac:(intros _) ltac:(fun H => idtac).
(** With what the environment did on the way. *)
Ltac wp_step_env := wp_step_with ltac:(intros ?) ltac:(fun H => idtac).

(** Lookups in a disk built by insertions and deletions at paths known
    to differ. *)
Ltac ne_solve :=
  first [assumption | apply not_eq_sym; assumption | path_ne | apply not_eq_sym; path_ne].

Lemma disk_insert_eq (m : gmap string string) p s : <[p := s]> m !! p = Some s.
Proof. apply lookup_insert_eq. Qed.
Lemma disk_insert_ne (m : gmap string string) p q s : p <> q -> <[p := s]> m !! q = m !! q.
Proof. apply lookup_insert_ne. Qed.
Lemma disk_delete_eq (m : gmap string string) p : delete p m !! p = None.
Proof. apply lookup_delete_eq. Qed.
Lemma disk_delete_ne (m : gmap string string) p q : p <> q -> delete p m !! q = m !! q.
Proof. apply lookup_delete_ne. Qed.

Ltac lookup_simpl :=
  repeat first
    [ rewrite disk_insert_eq
    | rewrite disk_delete_eq
    | rewrite disk_insert_ne by ne_solve
    | rewrite disk_delete_ne by ne_solve ].

Ltac lookup_simpl_in H :=
  repeat first
    [ rewrite disk_insert_eq in H
    | rewrite disk_delete_eq in H
    | rewrite disk_insert_ne in H by ne_solve
    | rewrite disk_delete_ne in H by ne_solve ].

Ltac lookup_hyps :=
  repeat match goal with
         | H : context [<[_ := _]> _ !! _] |- _ => progress lookup_simpl_in H
         | H : context [delete _ _ !! _] |- _ => progress lookup_simpl_in H
         end.

Ltac lookup_solve :=
  lookup_hyps; simplify_eq; repeat split; lookup_simpl;
  first [reflexivity | assumption | congruence].

(** The projections of a world built by the setters. *)
Ltac world_simpl :=
  cbn [files console clock random fs_faults lock_faults release_faults postsCache
       cacheVersion sessions set_files set_console set_random set_fs_faults
       set_lock_faults set_release_faults set_postsCache set_cacheVersion set_sessions
       skip_fault skip_lock_fault skip_release_fault skip_random] in *.

(** In an environment whose [fs] calls do not fail:  a failure met on
    the way contradicts [fs_faults w = []]. *)
Ltac no_fault_in H :=
  try solve
    [ exfalso;
      cbn [files console clock random fs_faults lock_faults release_faults postsCache
           cacheVersion sessions set_files set_console set_random set_fs_faults
           set_lock_faults set_release_faults set_postsCache set_cacheVersion set_sessions
           skip_fault skip_lock_fault skip_release_fault skip_random] in H;
      match goal with
      | Hnil : fs_faults _ = [] |- _ => rewrite Hnil in H
      end;
      discriminate H ].

Ltac wp_step_nofs := wp_step_with ltac:(intros _) ltac:(fun H => no_fault_in H).

(** ** The document and its digest *)

Lemma directWrite_stored filePath data w :
  wp (directWrite filePath data) w
     (fun r w' => r = Return tt -> stored filePath (stringify2 data) w').
Proof.
  unfold directWrite. repeat wp_step; try discriminate.
  intros _. unfold stored. world_simpl.
  lookup_solve.
Qed.

Lemma writeJSON_unfold filePath data :
  writeJSON filePath data =
  (fs_mkdir (path_dirname filePath) ;;
   try_locked (ret tt) (lockfile_lock filePath LOCK_OPTIONS)
     (fun _ => writeJSON_locked filePath data)
     (writeJSON_catch filePath data) writeJSON_finally).
Proof. reflexivity. Qed.

Lemma writeJSON_catch_stored filePath data err w :
  wp (writeJSON_catch filePath data err) w
     (fun r w' => r = Return tt -> stored filePath (stringify2 data) w').
Proof.
  unfold writeJSON_catch. wp_step. wp_step. wp_step.
  eapply wp_conseq; [apply directWrite_stored|].
  intros [[]|e] w' H; cbv beta iota; [auto|].
  repeat wp_step. discriminate.
Qed.

Lemma writeJSON_locked_stored filePath data w :
  wp (writeJSON_locked filePath data) w
     (fun r w' => r = Return tt -> stored filePath (stringify2 data) w').
Proof.
  unfold writeJSON_locked.
  repeat wp_step; try discriminate; intros _; unfold stored; world_simpl.
  all: lookup_solve.
Qed.

Lemma writeJSON_finally_files release w Q :
  (forall w', files w' = files w -> Q (Return tt) w') ->
  wp (writeJSON_finally release) w Q.
Proof.
  intros HQ. destruct release as [r|]; simpl; repeat wp_step; apply HQ; reflexivity.
Qed.

(** A successful [writeJSON] leaves the payload and its digest on disk,
    whatever failures the environment injected on the way. *)
Lemma writeJSON_stored filePath data w :
  wp (writeJSON filePath data) w
     (fun r w' => r = Return tt -> stored filePath (stringify2 data) w').
Proof.
  rewrite writeJSON_unfold.
  assert (Hfin : forall (r : Outcome unit) w1 release,
             (r = Return tt -> stored filePath (stringify2 data) w1) ->
             wp (writeJSON_finally release) w1
                (fun r2 w2 => match r2 with
                              | Return _ => r = Return tt -> stored filePath (stringify2 data) w2
                              | Throw e => Throw e = Return tt ->
                                           stored filePath (stringify2 data) w2
                              end)).
  { intros r w1 release H. apply writeJSON_finally_files.
    intros w' Hf Hr. unfold stored in *. rewrite Hf. auto. }
  wp_step. wp_step; [discriminate|].
  wp_step. wp_step. wp_step.
  - wp_step. eapply wp_conseq; [apply writeJSON_catch_stored|]. intros r w1 Hst.
    apply (Hfin r w1 None Hst).
  - wp_step. wp_step.
    eapply wp_conseq; [apply writeJSON_locked_stored|]. intros r w1 Hst.
    destruct r as [[]|e']; cbv beta iota.
    + apply (Hfin (Return tt) w1 _ Hst).
    + eapply wp_conseq; [apply writeJSON_catch_stored|]. intros r2 w2 Hst2.
      apply (Hfin r2 w2 _ Hst2).
Qed.

(** The temporary files and the two renames leave the payload and its
    digest in place. *)
Lemma writeAndRename_stored payload w :
  wp (writeAndRename payload) w
     (fun r w' => (r = Return tt -> stored POSTS_PATH payload w') /\
                  postsCache w' = postsCache w /\
                  release_faults w' = release_faults w /\
                  files w' !! (POSTS_PATH ++ ".backup") = files w !! (POSTS_PATH ++ ".backup")).
Proof.
  unfold writeAndRename.
  generalize (toString 10 (clock w)). intros n.
  generalize POSTS_PATH. intros P.
  repeat wp_step; unfold stored; world_simpl.
  all: repeat split; try discriminate; try intros _; lookup_solve.
Qed.

Ltac wp_writeAndRename :=
  eapply wp_conseq; [apply writeAndRename_stored|];
  let r := fresh "r" in let w := fresh "w" in
  let Hst := fresh "Hst" in let Hpc := fresh "Hpc" in
  let Hrf := fresh "Hrf" in let Hbk := fresh "Hbk" in
  intros r w (Hst & Hpc & Hrf & Hbk); destruct r as [[]|?].

Ltac release_clash :=
  match goal with
  | H : release_ok ?w, E : release_faults ?w = Some _ :: _ |- _ =>
      unfold release_ok in H; rewrite E in H; contradiction
  end.

Ltac calm_solve :=
  match goal with
  | C : calm ?w |- _ =>
      let C1 := fresh in let C2 := fresh in let C3 := fresh in
      destruct C as (C1 & C2 & C3); world_simpl;
      rewrite ?C1, ?C2, ?C3 in *; simpl in *; discriminate
  end.

Ltac finish :=
  unfold stored, backup_of in *; world_simpl;
  repeat (match goal with
          | |- _ /\ _ => split
          | |- forall _, _ => intro
          end);
  simplify_eq;
  cbn [created cre_allPosts deleted del_allPosts oldPost updatedPost upd_allPosts] in *;
  try (match goal with
       | Hrf : release_faults ?w0 = release_faults ?w, H : release_faults ?w0 = _ :: _ |- _ =>
           rewrite Hrf in H
       end);
  try release_clash;
  try calm_solve;
  try first [ reflexivity | congruence | tauto
            | eexists; repeat split; first [reflexivity | eassumption | tauto ]
            | do 2 eexists; repeat split; first [reflexivity | eassumption | tauto ] ].

Lemma writePostsOptimized_spec posts w :
  wp (writePostsOptimized posts) w
     (fun r w' =>
        (r = Return tt ->
         exists sorted, sortPosts posts = Return sorted /\
                        stored POSTS_PATH (stringify2 (JArr sorted)) w' /\
                        postsCache w' = JArr sorted) /\
        (forall e, r = Throw e -> release_ok w -> postsCache w' = JNull) /\
        backup_of w' = backup_of w).
Proof.
  unfold writePostsOptimized.
  wp_step. wp_step. wp_step.
  - (* sorted *) wp_step.
    + (* the lock is not had *)
      repeat wp_step; finish.
    + wp_step. wp_step. wp_step. wp_writeAndRename.
      * repeat wp_step; finish.
      * repeat wp_step; finish.
  - repeat wp_step; finish.
Qed.

(** The three mutators: what a result tells about the disk and the cache. *)
Lemma atomicCreatePost_spec newPost w :
  wp (atomicCreatePost newPost) w
     (fun r w' =>
        (forall c, r = Return (Success c) ->
           created c = newPost /\
           (exists data posts,
               files w !! POSTS_PATH = Some data /\
               JSON_parse (or_default data "[]") = Some (JArr posts) /\
               sortPosts (posts ++ [newPost]) = Return (cre_allPosts c)) /\
           stored POSTS_PATH (stringify2 (JArr (cre_allPosts c))) w' /\
           postsCache w' = JArr (cre_allPosts c)) /\
        (forall msg, r = Return (Failure msg) -> postsCache w' = JNull) /\
        backup_of w' = backup_of w).
Proof.
  unfold atomicCreatePost.
  wp_step. wp_step. wp_step.
  - repeat wp_step; finish.
  - wp_step. wp_step.
    wp_step. wp_step; [repeat wp_step; finish ..|].
    wp_step. wp_step; [repeat wp_step; finish|].
    wp_step. wp_step. wp_step; [|repeat wp_step; finish].
    assert (v = JArr a) as -> by (destruct v; simpl in *; congruence).
    world_simpl.
    wp_step. wp_step. wp_step; [|repeat wp_step; finish].
    wp_step. wp_writeAndRename.
    + repeat wp_step; finish.
    + repeat wp_step; finish.
Qed.

Lemma atomicUpdatePost_spec postId updateFn w :
  wp (atomicUpdatePost postId updateFn) w
     (fun r w' =>
        (forall u, r = Return (Success u) ->
           (exists data posts idx,
               files w !! POSTS_PATH = Some data /\
               JSON_parse (or_default data "[]") = Some (JArr posts) /\
               findIndex postId 0 posts = Return (Some idx) /\
               sortPosts (<[idx := updateFn (default JNull (posts !! idx))]> posts)
               = Return (upd_allPosts u)) /\
           stored POSTS_PATH (stringify2 (JArr (upd_allPosts u))) w' /\
           postsCache w' = JArr (upd_allPosts u)) /\
        (forall msg, r = Return (Failure msg) -> msg <> "Post not found" ->
                     postsCache w' = JNull) /\
        backup_of w' = backup_of w).
Proof.
  unfold atomicUpdatePost.
  wp_step. wp_step. wp_step.
  - repeat wp_step; finish.
  - wp_step. wp_step.
    wp_step. wp_step; [repeat wp_step; finish ..|].
    wp_step. wp_step; [repeat wp_step; finish|].
    wp_step. wp_step. wp_step; [|repeat wp_step; finish].
    assert (v = JArr a) as -> by (destruct v; simpl in *; congruence).
    world_simpl.
    wp_step. wp_step. wp_step; [|repeat wp_step; finish].
    wp_step; [|repeat wp_step; finish].
    wp_step. wp_step. wp_step; [|repeat wp_step; finish].
    wp_step. wp_writeAndRename.
    + repeat wp_step; finish.
      do 3 eexists. repeat split; eauto.
    + repeat wp_step; finish.
Qed.

Lemma atomicDeletePost_spec postId w :
  wp (atomicDeletePost postId) w
     (fun r w' =>
        (forall d, r = Return (Success d) ->
           (exists data posts idx,
               files w !! POSTS_PATH = Some data /\
               JSON_parse (or_default data "[]") = Some (JArr posts) /\
               findIndex postId 0 posts = Return (Some idx) /\
               del_allPosts d = delete idx posts) /\
           stored POSTS_PATH (stringify2 (JArr (del_allPosts d))) w' /\
           postsCache w' = JArr (del_allPosts d)) /\
        (forall msg, r = Return (Failure msg) -> msg <> "Post not found" ->
                     postsCache w' = JNull) /\
        backup_of w' = backup_of w).
Proof.
  unfold atomicDeletePost.
  wp_step. wp_step. wp_step.
  - repeat wp_step; finish.
  - wp_step. wp_step.
    wp_step. wp_step; [repeat wp_step; finish ..|].
    wp_step. wp_step; [repeat wp_step; finish|].
    wp_step. wp_step. wp_step; [|repeat wp_step; finish].
    assert (v = JArr a) as -> by (destruct v; simpl in *; congruence).
    world_simpl.
    wp_step. wp_step. wp_step; [|repeat wp_step; finish].
    wp_step; [|repeat wp_step; finish].
    wp_step. wp_writeAndRename.
    + repeat wp_step; finish.
      do 3 eexists. repeat split; eauto.
    + repeat wp_step; finish.
Qed.

(** ** An id that is not in the collection *)

Lemma findIndex_absent postId posts i :
  absent postId posts -> findIndex postId i posts = Return None.
Proof.
  intros H. revert i. induction H as [|p posts [Hn Hp] _ IH]; intros i; [reflexivity|].
  simpl. destruct p; try congruence; simpl in *; rewrite ?Hp; apply IH.
Qed.

Lemma atomicUpdatePost_absent postId updateFn data posts w :
  files w !! POSTS_PATH = Some data ->
  JSON_parse (or_default data "[]") = Some (JArr posts) ->
  absent postId posts ->
  wp (atomicUpdatePost postId updateFn) w
     (fun r w' =>
        files w' = files w /\
        (release_ok w -> exists msg, r = Return (Failure msg)) /\
        (calm w -> r = Return (Failure "Post not found") /\ postsCache w' = postsCache w)).
Proof.
  intros Hfile Hparse Habs. unfold atomicUpdatePost.
  wp_step. wp_step. wp_step.
  - repeat wp_step; finish.
  - wp_step. wp_step.
    wp_step. wp_step; [repeat wp_step; finish ..|].
    world_simpl. rewrite Hfile in *. simplify_eq.
    wp_step. wp_step; [congruence|]. rewrite Hparse in *. simplify_eq.
    wp_step. wp_step. simpl as_array.
    wp_step. wp_step. rewrite (findIndex_absent _ _ _ Habs).
    repeat wp_step; finish.
Qed.

Lemma atomicDeletePost_absent postId data posts w :
  files w !! POSTS_PATH = Some data ->
  JSON_parse (or_default data "[]") = Some (JArr posts) ->
  absent postId posts ->
  wp (atomicDeletePost postId) w
     (fun r w' =>
        files w' = files w /\
        (release_ok w -> exists msg, r = Return (Failure msg)) /\
        (calm w -> r = Return (Failure "Post not found") /\ postsCache w' = postsCache w)).
Proof.
  intros Hfile Hparse Habs. unfold atomicDeletePost.
  wp_step. wp_step. wp_step.
  - repeat wp_step; finish.
  - wp_step. wp_step.
    wp_step. wp_step; [repeat wp_step; finish ..|].
    world_simpl. rewrite Hfile in *. simplify_eq.
    wp_step. wp_step; [congruence|]. rewrite Hparse in *. simplify_eq.
    wp_step. wp_step. simpl as_array.
    wp_step. wp_step. rewrite (findIndex_absent _ _ _ Habs).
    repeat wp_step; finish.
Qed.

(** ** Sequences of writes *)

Lemma perform_digest op w w' :
  perform op w = (Return true, w') -> digest_matches (document op) w'.
Proof.
  destruct op as [filePath data|posts|newPost|postId updateFn|postId];
    unfold perform, bind, ret; simpl document.
  - destruct (writeJSON filePath data w) as [[[]|e] w1] eqn:E; [|discriminate].
    intros [= <-]. eexists. exact (wp_run _ _ _ _ _ (writeJSON_stored _ _ _) E eq_refl).
  - destruct (writePostsOptimized posts w) as [[[]|e] w1] eqn:E; [|discriminate].
    intros [= <-].
    destruct (wp_run _ _ _ _ _ (writePostsOptimized_spec _ _) E) as (H & _).
    destruct (H eq_refl) as (sorted & _ & Hst & _). eexists. exact Hst.
  - destruct (atomicCreatePost newPost w) as [[[c|msg]|e] w1] eqn:E; try discriminate.
    intros [= <-].
    destruct (wp_run _ _ _ _ _ (atomicCreatePost_spec _ _) E) as (H & _).
    destruct (H c eq_refl) as (_ & _ & Hst & _). eexists. exact Hst.
  - destruct (atomicUpdatePost postId updateFn w) as [[[u|msg]|e] w1] eqn:E; try discriminate.
    intros [= <-].
    destruct (wp_run _ _ _ _ _ (atomicUpdatePost_spec _ _ _) E) as (H & _).
    destruct (H u eq_refl) as (_ & Hst & _). eexists. exact Hst.
  - destruct (atomicDeletePost postId w) as [[[d|msg]|e] w1] eqn:E; try discriminate.
    intros [= <-].
    destruct (wp_run _ _ _ _ _ (atomicDeletePost_spec _ _) E) as (H & _).
    destruct (H d eq_refl) as (_ & Hst & _). eexists. exact Hst.
Qed.

(** C1. After each write of a sequence of successfully completed writes
    (writeJSON, writePostsOptimized, atomicCreatePost, atomicUpdatePost,
    atomicDeletePost), the digest file of the written document holds the
    SHA-256 of the bytes the document holds on disk. *)
Theorem digest_matches_after_each_write (ops : list Write) (w : World) (ws : list World) :
  perform_all ops w = Some ws ->
  Forall2 (fun op w' => digest_matches (document op) w') ops ws.
Proof.
  revert w ws. induction ops as [|op ops IH]; intros w ws H; simpl in H.
  - injection H as <-. constructor.
  - destruct (perform op w) as [[[|]|e] w1] eqn:E; try discriminate.
    destruct (perform_all ops w1) as [ws1|] eqn:E1; [|discriminate].
    injection H as <-. constructor; [exact (perform_digest _ _ _ E)|exact (IH _ _ E1)].
Qed.

Lemma digest_matches_after_each_write_witness :
  exists ws, perform_all demo_writes demo_world = Some ws /\
             Forall2 (fun op w' => digest_matches (document op) w') demo_writes ws.
Proof.
  assert (C : completes demo_writes demo_world = true) by (vm_compute; reflexivity).
  unfold completes in C.
  destruct (perform_all demo_writes demo_world) as [ws|] eqn:E; [|discriminate C].
  exists ws. split; [reflexivity|].
  exact (digest_matches_after_each_write demo_writes demo_world ws E).
Defined.



(** ** Failed writes and the cache *)

Lemma wp_eq {A} (m : M A) w (r : Outcome A) w' :
  wp m w (fun r0 w0 => r0 = r /\ w0 = w') -> m w = (r, w').
Proof. unfold wp. intros [<- <-]. apply surjective_pairing. Qed.

Lemma readPostsOptimized_from_disk w data v :
  postsCache w = JNull -> fs_ok w ->
  files w !! POSTS_PATH = Some data ->
  JSON_parse (or_default data "[]") = Some v ->
  readPostsOptimized w =
  (slice v, set_cacheVersion (cacheVersion w + 1) (set_postsCache v (skip_fault w))).
Proof.
  intros Hc Hok Hfile Hparse. apply wp_eq.
  unfold readPostsOptimized, fs_ok in *. wp_step. wp_step. rewrite Hc. simpl negb.
  cbv iota. wp_step. wp_step. wp_step.
  - exfalso. rewrite Hfault in Hok. exact Hok.
  - congruence.
  - rewrite Hfile in H. injection H as <-. wp_step. wp_step; [congruence|].
    rewrite Hparse in H. injection H as <-.
    repeat wp_step; world_simpl;
      try (destruct v; simpl in *; simplify_eq; try discriminate);
      split; reflexivity.
Qed.



(** ** The backup copy *)

Ltac no_fs_fault :=
  exfalso; world_simpl;
  match goal with
  | Hfs : fs_faults ?w = [], H : context [fs_faults ?w] |- _ =>
      rewrite Hfs in H; discriminate H
  end.

Ltac no_lock_fault :=
  exfalso; world_simpl;
  match goal with
  | Hl : lock_ok ?w, H : lock_faults ?w = Some _ :: _ |- _ =>
      unfold lock_ok in Hl; rewrite H in Hl; exact Hl
  end.

Lemma writeJSON_backup filePath data old w :
  lock_ok w -> fs_faults w = [] -> files w !! filePath = Some old ->
  wp (writeJSON filePath data) w
     (fun r w' => r = Return tt /\
                  files w' !! (filePath ++ ".backup") = Some old /\
                  stored filePath (stringify2 data) w').
Proof.
  intros Hl Hfs Hold. rewrite writeJSON_unfold. unfold writeJSON_locked.
  wp_step_nofs. wp_step_nofs. wp_step_nofs. wp_step_nofs. wp_step_nofs; [no_lock_fault|].
  unfold writeJSON_finally.
  repeat wp_step_nofs.
  all: unfold stored; world_simpl.
  all: lookup_solve.
Qed.

Lemma posts_writers_leave_backup op w r w' :
  document op = POSTS_PATH -> (forall p d, op <> WriteJSON p d) ->
  perform op w = (r, w') -> backup_of w' = backup_of w.
Proof.
  intros _ Hop.
  destruct op as [filePath data|posts|newPost|postId updateFn|postId];
    [exfalso; eapply Hop; reflexivity|..]; unfold perform, bind, ret.
  - destruct (writePostsOptimized posts w) as [[[]|e] w1] eqn:E; intros [= <- <-];
      exact (proj2 (proj2 (wp_run _ _ _ _ _ (writePostsOptimized_spec _ _) E))).
  - destruct (atomicCreatePost newPost w) as [[c|e] w1] eqn:E; intros [= <- <-];
      exact (proj2 (proj2 (wp_run _ _ _ _ _ (atomicCreatePost_spec _ _) E))).
  - destruct (atomicUpdatePost postId updateFn w) as [[c|e] w1] eqn:E; intros [= <- <-];
      exact (proj2 (proj2 (wp_run _ _ _ _ _ (atomicUpdatePost_spec _ _ _) E))).
  - destruct (atomicDeletePost postId w) as [[c|e] w1] eqn:E; intros [= <- <-];
      exact (proj2 (proj2 (wp_run _ _ _ _ _ (atomicDeletePost_spec _ _) E))).
Qed.

(** C6, as the code has it.  [writeJSON] copies the content the file has
    to [path.backup] before it brings the new version in place, when it
    has the lock and no call of [fs] fails; the four writers of the posts
    collection leave [posts.json.backup] as it is. *)
Theorem backup_made_by_writeJSON_only :
  (forall filePath data old w,
      lock_ok w -> fs_faults w = [] -> files w !! filePath = Some old ->
      exists w', writeJSON filePath data w = (Return tt, w') /\
                 files w' !! (filePath ++ ".backup") = Some old /\
                 stored filePath (stringify2 data) w') /\
  (forall op w r w',
      document op = POSTS_PATH -> (forall p d, op <> WriteJSON p d) ->
      perform op w = (r, w') ->
      files w' !! (POSTS_PATH ++ ".backup") = files w !! (POSTS_PATH ++ ".backup")).
Proof.
  split.
  - intros filePath data old w Hl Hfs Hold.
    destruct (writeJSON filePath data w) as [r w'] eqn:E. exists w'.
    destruct (wp_run _ _ _ _ _ (writeJSON_backup _ data _ _ Hl Hfs Hold) E) as (-> & Hb & Hs).
    auto.
  - intros op w r w' Hd Hop E. exact (posts_writers_leave_backup _ _ _ _ Hd Hop E).
Qed.

Lemma backup_made_by_writeJSON_only_witness :
  let w1 := snd (writeJSON lists_path (JArr [JStr "v1"]) demo_world) in
  let w2 := snd (writeJSON lists_path (JArr [JStr "v2"]) w1) in
  files w2 !! (lists_path ++ ".backup") = files w1 !! lists_path /\
  files (snd (perform (CreatePost (demo_post 2 "2026-01-01" "10:00")) one_post_world))
    !! (POSTS_PATH ++ ".backup") = files one_post_world !! (POSTS_PATH ++ ".backup").
Proof.
  intros w1 w2. split.
  - assert (Hold : files w1 !! lists_path = Some (stringify2 (JArr [JStr "v1"])))
      by (vm_compute; reflexivity).
    destruct (proj1 backup_made_by_writeJSON_only lists_path (JArr [JStr "v2"])
                (stringify2 (JArr [JStr "v1"])) w1)
      as (w' & E & Hb & _); [vm_compute; exact I | vm_compute; reflexivity | exact Hold |].
    unfold w2. rewrite E. simpl snd. rewrite Hb, Hold. reflexivity.
  - destruct (perform (CreatePost (demo_post 2 "2026-01-01" "10:00")) one_post_world)
      as [r w'] eqn:E.
    refine (proj2 backup_made_by_writeJSON_only _ _ _ _ _ _ E); [reflexivity|discriminate].
Defined.

(** Against C6 as stated: [writePostsOptimized], then a successful
    [atomicCreatePost]; the collection of before is in no backup file. *)
Lemma posts_writers_make_no_backup :
  let w2 := snd (atomicCreatePost (demo_post 2 "2026-01-01" "10:00") one_post_world) in
  fst (atomicCreatePost (demo_post 2 "2026-01-01" "10:00") one_post_world)
  = Return (Success (mkCreated (demo_post 2 "2026-01-01" "10:00")
                               [demo_post 2 "2026-01-01" "10:00";
                                demo_post 1 "2026-01-02" "09:00"])) /\
  files one_post_world !! POSTS_PATH
  = Some (stringify2 (JArr [demo_post 1 "2026-01-02" "09:00"])) /\
  files w2 !! (POSTS_PATH ++ ".backup") = None.
Proof. vm_compute. repeat split; reflexivity. Qed.

(** ** The lock is not to be had *)

(** What the environment did contradicts what it was going to do. *)
Ltac env_clash :=
  exfalso; unfold fs_ok, lock_ok, release_ok in *; world_simpl;
  match goal with
  | H : ?plan = Some _ :: _, Hok : match ?plan with [] => _ | _ :: _ => _ end |- _ =>
      rewrite H in Hok; exact Hok
  | H : ?plan = [], H' : ?plan = _ :: _ |- _ => rewrite H in H'; discriminate H'
  end.

Lemma writeJSON_lock_failure filePath data w e plan :
  fs_ok w -> lock_faults w = Some e :: plan ->
  wp (writeJSON filePath data) w
     (fun r w' =>
        In (lock_failure_line filePath e) (console w') /\
        ((r = Return tt /\ stored filePath (stringify2 data) w') \/ r = Throw e) /\
        (fs_faults w = [] -> r = Return tt)).
Proof.
  intros Hfs Hlock. rewrite writeJSON_unfold. unfold writeJSON_catch, directWrite.
  wp_step_env. wp_step_env; [env_clash|].
  wp_step_env. wp_step_env. wp_step_env; [|env_clash].
  world_simpl. rewrite Hlock in Hfault. injection Hfault as <- <-. unfold writeJSON_finally.
  repeat wp_step; unfold stored, lock_failure_line; world_simpl.
  all: repeat split; try (rewrite !in_app_iff; simpl; tauto).
  all: try (right; reflexivity).
  all: try (intros Hnil; rewrite Hnil in *; discriminate).
  all: try reflexivity.
  left. lookup_solve.
Qed.

(** C7, as the code has it.  When the lock is not to be had, [writeJSON]
    logs the failure and writes the payload and the digest directly,
    without the lock; it returns when both direct writes succeed, and
    when one of them fails it throws the error of the lock to its
    caller. *)
Theorem lock_failure_falls_back
    (filePath : string) (data : json) (w : World) (e : JsError)
    (plan : list (option JsError)) (r : Outcome unit) (w' : World) :
  fs_ok w ->
  lock_faults w = Some e :: plan ->
  writeJSON filePath data w = (r, w') ->
  In (lock_failure_line filePath e) (console w') /\
  ((r = Return tt /\ stored filePath (stringify2 data) w') \/ r = Throw e) /\
  (fs_faults w = [] -> r = Return tt).
Proof.
  intros Hfs Hlock E. exact (wp_run _ _ _ _ _ (writeJSON_lock_failure _ _ _ _ _ Hfs Hlock) E).
Qed.

Lemma lock_failure_falls_back_witness :
  fst (writeJSON lists_path (JArr [JStr "v1"]) contended_world) = Return tt /\
  stored lists_path (stringify2 (JArr [JStr "v1"]))
         (snd (writeJSON lists_path (JArr [JStr "v1"]) contended_world)).
Proof.
  destruct (writeJSON lists_path (JArr [JStr "v1"]) contended_world) as [r w'] eqn:E.
  destruct (lock_failure_falls_back lists_path (JArr [JStr "v1"]) contended_world
              ELOCKED [] r w') as (_ & [[Hr Hs]|Hr] & Hnil);
    [vm_compute; exact I | reflexivity | exact E | | ].
  - simpl. auto.
  - simpl. rewrite (Hnil eq_refl) in Hr. discriminate Hr.
Defined.

(** Against C7 as stated: the error of the lock reaches the caller. *)
Lemma lock_error_is_thrown :
  lock_faults contended_full_world = [Some ELOCKED] /\
  fst (writeJSON lists_path (JArr [JStr "v1"]) contended_full_world) = Throw ELOCKED.
Proof. vm_compute. split; reflexivity. Qed.

(** ** Reading a document *)

Ltac read_step :=
  wp_step_env; world_simpl;
  try solve [no_fs_fault | congruence];
  repeat match goal with
         | H1 : ?x = Some _, H2 : ?x = Some _ |- _ => rewrite H1 in H2; injection H2 as <-
         | H1 : ?x = Some _, H2 : ?x = None |- _ => rewrite H1 in H2; discriminate H2
         end.

Ltac checksum_clash :=
  exfalso;
  match goal with
  | Heqb : negb (String.eqb _ _) = false |- _ => apply negb_false_iff, String.eqb_eq in Heqb
  | Heqb : negb (String.eqb _ _) = true |- _ => apply negb_true_iff, String.eqb_neq in Heqb
  end; congruence.

Lemma readJSON_mismatch filePath data digest backupData v w :
  fs_faults w = [] ->
  files w !! filePath = Some data ->
  files w !! (filePath ++ ".backup") = Some backupData ->
  JSON_parse (or_default backupData "null") = Some v ->
  files w !! (filePath ++ ".sha256") = Some digest ->
  trim digest <> sha256 data ->
  wp (readJSON filePath) w
     (fun r w' => r = Return v /\ In (mismatch_line filePath) (console w')).
Proof.
  intros Hfs Hfile Hbak Hparse Hdig Hne. unfold readJSON.
  repeat read_step; try checksum_clash.
  split; [reflexivity|]. unfold mismatch_line. rewrite !in_app_iff. simpl. tauto.
Qed.

Lemma readJSON_unparseable filePath data w :
  fs_faults w = [] ->
  files w !! filePath = Some data ->
  JSON_parse (or_default data "null") = None ->
  digest_agrees filePath data w ->
  wp (readJSON filePath) w
     (fun r w' => r = Throw (SyntaxError "Unexpected token in JSON")).
Proof.
  intros Hfs Hfile Hparse Hdig. unfold readJSON, digest_agrees in *.
  repeat read_step; try reflexivity.
  all: try (match goal with
            | Hc : code_is (SyntaxError _) _ = true |- _ => vm_compute in Hc; discriminate Hc
            end).
  all: try (match goal with
            | Hd : ?x = Some _, Hg : match ?x with Some _ => _ | None => _ end |- _ =>
                rewrite Hd in Hg
            end; checksum_clash).
Qed.

(** C2, as the code has it.  With a parseable backup in place: when the
    digest file is present and does not match the bytes of the primary,
    readJSON returns the parsed backup and logs the mismatch; when the
    primary does not parse while its digest is missing or matches, the
    error of the parse is thrown and the backup is not consulted. *)
Theorem backup_is_read_on_mismatch_only
    (filePath data backupData : string) (v : json) (w : World) :
  fs_faults w = [] ->
  files w !! filePath = Some data ->
  files w !! (filePath ++ ".backup") = Some backupData ->
  JSON_parse (or_default backupData "null") = Some v ->
  (forall digest,
      files w !! (filePath ++ ".sha256") = Some digest ->
      trim digest <> sha256 data ->
      fst (readJSON filePath w) = Return v /\
      In (mismatch_line filePath) (console (snd (readJSON filePath w)))) /\
  (digest_agrees filePath data w ->
   JSON_parse (or_default data "null") = None ->
   fst (readJSON filePath w) = Throw (SyntaxError "Unexpected token in JSON")).
Proof.
  intros Hfs Hfile Hbak Hparse. split.
  - intros digest Hdig Hne.
    exact (readJSON_mismatch _ _ _ _ _ _ Hfs Hfile Hbak Hparse Hdig Hne).
  - intros Hdig Hbad. exact (readJSON_unparseable _ _ _ Hfs Hfile Hbad Hdig).
Qed.

Lemma backup_is_read_on_mismatch_only_witness :
  fst (readJSON lists_path flipped_digest_world) = Return (JArr [JNum 1]) /\
  fst (readJSON lists_path unparseable_world) = Throw (SyntaxError "Unexpected token in JSON").
Proof.
  split.
  - assert (Hne : trim ("00" ++ sha256 "[2]") <> sha256 "[2]") by (vm_compute; discriminate).
    refine (proj1 (proj1 (backup_is_read_on_mismatch_only lists_path "[2]" "[1]" (JArr [JNum 1])
              flipped_digest_world _ _ _ _) ("00" ++ sha256 "[2]") _ Hne));
      vm_compute; reflexivity.
  - assert (Hd : digest_agrees lists_path "[2" unparseable_world) by (vm_compute; exact I).
    refine (proj2 (backup_is_read_on_mismatch_only lists_path "[2" "[1]" (JArr [JNum 1])
              unparseable_world _ _ _ _) Hd _);
      vm_compute; reflexivity.
Defined.

(** Against C2 as stated: the primary does not parse, a parseable backup
    exists, and the read raises. *)
Lemma parse_failure_is_raised :
  files unparseable_world !! lists_path = Some "[2" /\
  JSON_parse "[2" = None /\
  files unparseable_world !! (lists_path ++ ".backup") = Some "[1]" /\
  JSON_parse "[1]" = Some (JArr [JNum 1]) /\
  fst (readJSON lists_path unparseable_world) = Throw (SyntaxError "Unexpected token in JSON").
Proof. vm_compute. repeat split; reflexivity. Qed.

(** ** The posts file is missing *)

Ltac env_step := wp_step_env; world_simpl; try solve [env_clash | congruence].

Lemma readPostsOptimized_missing w :
  postsCache w = JNull -> fs_ok w -> files w !! POSTS_PATH = None ->
  wp readPostsOptimized w (fun r w' => r = Return (JArr []) /\ postsCache w' = JArr []).
Proof.
  intros Hc Hok Hfile. unfold readPostsOptimized.
  env_step. env_step. rewrite Hc. simpl negb. cbv iota.
  repeat env_step; try (vm_compute in Heqb; discriminate Heqb).
  all: try (split; reflexivity).
Qed.

Lemma readJSON_missing filePath w :
  fs_ok w -> files w !! filePath = None ->
  wp (readJSON filePath) w (fun r w' => r = Return JNull).
Proof.
  intros Hok Hfile. unfold readJSON.
  repeat env_step; try (vm_compute in Heqb; discriminate Heqb).
  all: try reflexivity.
Qed.

Lemma readPostsOptimized_read_error w e plan :
  postsCache w = JNull -> fs_faults w = Some e :: plan -> code_is e "ENOENT" = false ->
  wp readPostsOptimized w (fun r w' => r = Throw e).
Proof.
  intros Hc Hf Hcode. unfold readPostsOptimized.
  env_step. env_step. rewrite Hc. simpl negb. cbv iota.
  env_step. env_step. env_step.
  rewrite Hf in Hfault. injection Hfault as <- <-. rewrite Hcode. env_step.
Qed.

Lemma readPostsOptimized_parse_error w data :
  postsCache w = JNull -> fs_ok w -> files w !! POSTS_PATH = Some data ->
  JSON_parse (or_default data "[]") = None ->
  wp readPostsOptimized w (fun r w' => r = Throw (SyntaxError "Unexpected token in JSON")).
Proof.
  intros Hc Hok Hfile Hparse. unfold readPostsOptimized.
  env_step. env_step. rewrite Hc. simpl negb. cbv iota.
  env_step. env_step. env_step. rewrite Hfile in H0. injection H0 as <-.
  repeat env_step; try (vm_compute in Heqb; discriminate Heqb).
  all: try reflexivity.
Qed.

(** C10. With an empty cache and no posts file, readPostsOptimized
    returns the empty array and caches it, where readJSON returns
    null; a read error whose code is not ENOENT, and the error of a
    file that does not parse, are thrown to the caller. *)
Theorem missing_posts_file_reads_as_empty (w : World) :
  postsCache w = JNull ->
  (fs_ok w -> files w !! POSTS_PATH = None ->
   fst (readPostsOptimized w) = Return (JArr []) /\
   postsCache (snd (readPostsOptimized w)) = JArr [] /\
   fst (readJSON POSTS_PATH w) = Return JNull) /\
  (forall e plan,
      fs_faults w = Some e :: plan -> code_is e "ENOENT" = false ->
      fst (readPostsOptimized w) = Throw e) /\
  (forall data,
      fs_ok w -> files w !! POSTS_PATH = Some data ->
      JSON_parse (or_default data "[]") = None ->
      fst (readPostsOptimized w) = Throw (SyntaxError "Unexpected token in JSON")).
Proof.
  intros Hc. split; [|split].
  - intros Hok Hfile. split; [|split].
    + exact (proj1 (readPostsOptimized_missing w Hc Hok Hfile)).
    + exact (proj2 (readPostsOptimized_missing w Hc Hok Hfile)).
    + exact (readJSON_missing POSTS_PATH w Hok Hfile).
  - intros e plan Hf Hcode. exact (readPostsOptimized_read_error w e plan Hc Hf Hcode).
  - intros data Hok Hfile Hparse. exact (readPostsOptimized_parse_error w data Hc Hok Hfile Hparse).
Qed.

Lemma missing_posts_file_reads_as_empty_witness :
  fst (readPostsOptimized demo_world) = Return (JArr []) /\
  fst (readPostsOptimized
         (mkWorld ∅ [] 0 [] [Some EACCES] [] [] JNull 0 [])) = Throw EACCES.
Proof.
  split.
  - refine (proj1 (proj1 (missing_posts_file_reads_as_empty demo_world _) _ _));
      vm_compute; trivial.
  - refine (proj1 (proj2 (missing_posts_file_reads_as_empty
                            (mkWorld ∅ [] 0 [] [Some EACCES] [] [] JNull 0 []) _)) EACCES [] _ _);
      vm_compute; reflexivity.
Defined.

(** ** The session table *)

Section RevokeLoop.
Variable user : string.

Lemma revokeLoop_table entries m c :
  fst (fold_left (fun '(m, revokedCount) '(t, s) =>
                    if String.eqb (username s) user
                    then (Map_delete t m, revokedCount + 1)
                    else (m, revokedCount))
                 entries (m, c))
  = fold_left (revokeOne user) entries m.
Proof.
  revert m c. induction entries as [|[t s] entries IH]; intros m c; [reflexivity|].
  simpl. unfold revokeOne at 2. simpl. destruct (String.eqb (username s) user); apply IH.
Qed.

Lemma Map_delete_In t e m : In e (Map_delete t m) <-> In e m /\ fst e <> t.
Proof.
  unfold Map_delete. rewrite filter_In, negb_true_iff, String.eqb_neq.
  intuition congruence.
Qed.

Lemma revokeOne_In m e e' : In e' (revokeOne user m e) -> In e' m.
Proof.
  unfold revokeOne. destruct (String.eqb (username (snd e)) user); [|trivial].
  rewrite Map_delete_In. tauto.
Qed.

Lemma fold_revokeOne_In entries m e' :
  In e' (fold_left (revokeOne user) entries m) -> In e' m.
Proof.
  revert m. induction entries as [|e entries IH]; intros m; simpl; [trivial|].
  intros H. eapply revokeOne_In, IH, H.
Qed.

(** A visited session of the user is gone, with every entry of its token. *)
Lemma fold_revokeOne_gone entries m e e' :
  In e entries -> username (snd e) = user ->
  In e' (fold_left (revokeOne user) entries m) -> fst e' <> fst e.
Proof.
  revert m. induction entries as [|e0 entries IH]; intros m; simpl; [tauto|].
  intros [->|Hin] Hu H.
  - apply fold_revokeOne_In in H. unfold revokeOne in H.
    apply String.eqb_eq in Hu. rewrite Hu in H. apply Map_delete_In in H. tauto.
  - eapply IH; eauto.
Qed.

Lemma revokeLoop_clean m e' :
  In e' (fst (revokeLoop user m m)) -> username (snd e') <> user.
Proof.
  unfold revokeLoop. rewrite revokeLoop_table. intros H Hu.
  pose proof (fold_revokeOne_In _ _ _ H) as Hin.
  exact (fold_revokeOne_gone m m e' e' Hin Hu H eq_refl).
Qed.

Lemma Map_get_In token m s : Map_get token m = Some s -> In (token, s) m.
Proof.
  induction m as [|[t s0] m IH]; simpl; [discriminate|].
  destruct (String.eqb token t) eqn:E.
  - apply String.eqb_eq in E. intros [= <-]. subst. auto.
  - auto.
Qed.

Lemma Map_get_None token m :
  (forall e, In e m -> fst e <> token) -> Map_get token m = None.
Proof.
  induction m as [|[t s0] m IH]; simpl; intros H; [reflexivity|].
  destruct (String.eqb token t) eqn:E.
  - apply String.eqb_eq in E. subst. exfalso. exact (H (t, s0) (or_introl eq_refl) eq_refl).
  - apply IH. intros e He. apply H. auto.
Qed.

Lemma revokeLoop_forgets m token s :
  Map_get token m = Some s -> username s = user ->
  Map_get token (fst (revokeLoop user m m)) = None.
Proof.
  intros Hg Hu. apply Map_get_None. intros e He.
  unfold revokeLoop in He. rewrite revokeLoop_table in He.
  apply Map_get_In in Hg.
  exact (fold_revokeOne_gone m m (token, s) e Hg Hu He).
Qed.
End RevokeLoop.

Section KeepsSessions.
Context {A B : Type}.

Lemma keeps_ret (a : A) : keeps_sessions (ret a).
Proof. intros w. reflexivity. Qed.

Lemma keeps_throw e : keeps_sessions (@throw A e).
Proof. intros w. reflexivity. Qed.

Lemma keeps_bind (m : M A) (k : A -> M B) :
  keeps_sessions m -> (forall a, keeps_sessions (k a)) -> keeps_sessions (bind m k).
Proof.
  intros Hm Hk w. unfold bind. specialize (Hm w).
  destruct (m w) as [[a|e] w1]; simpl in *; [rewrite Hk|]; exact Hm.
Qed.

Lemma keeps_try_catch (body : M A) handler :
  keeps_sessions body -> (forall e, keeps_sessions (handler e)) ->
  keeps_sessions (try_catch body handler).
Proof.
  intros Hm Hk w. unfold try_catch. specialize (Hm w).
  destruct (body w) as [[a|e] w1]; simpl in *; [|rewrite Hk]; exact Hm.
Qed.

Lemma keeps_finally (body : M A) fin :
  keeps_sessions body -> keeps_sessions fin -> keeps_sessions (finally body fin).
Proof.
  intros Hm Hf w. unfold finally. specialize (Hm w).
  destruct (body w) as [r w1]. specialize (Hf w1).
  destruct (fin w1) as [[u|e] w2]; simpl in *; congruence.
Qed.

Lemma keeps_try_locked (pre : M B) lock (body : B -> M A) handler fin :
  keeps_sessions pre -> keeps_sessions lock -> (forall b, keeps_sessions (body b)) ->
  (forall e, keeps_sessions (handler e)) -> (forall r, keeps_sessions (fin r)) ->
  keeps_sessions (try_locked pre lock body handler fin).
Proof.
  intros Hp Hl Hb Hh Hf w. unfold try_locked. specialize (Hp w).
  destruct (pre w) as [[b|e] w1]; simpl in Hp.
  - specialize (Hl w1). destruct (lock w1) as [[r|e] w2]; simpl in Hl.
    + rewrite (keeps_finally _ _ (keeps_try_catch _ _ (Hb b) Hh) (Hf _)). congruence.
    + rewrite (keeps_finally _ _ (Hh e) (Hf _)). congruence.
  - rewrite (keeps_finally _ _ (Hh e) (Hf _)). congruence.
Qed.

Lemma keeps_fs_call (natural : M A) : keeps_sessions natural -> keeps_sessions (fs_call natural).
Proof.
  intros Hn w. rewrite fs_call_eq.
  destruct (fs_faults w) as [|[e|] plan]; try reflexivity; exact (Hn (skip_fault w)).
Qed.
End KeepsSessions.

Lemma keeps_fs_writeFile p s : keeps_sessions (fs_writeFile p s).
Proof. apply keeps_fs_call. intros w. reflexivity. Qed.
Lemma keeps_fs_mkdir d : keeps_sessions (fs_mkdir d).
Proof. apply keeps_fs_call. intros w. reflexivity. Qed.
Lemma keeps_fs_copyFile p q : keeps_sessions (fs_copyFile p q).
Proof. apply keeps_fs_call. intros w. destruct (files w !! p); reflexivity. Qed.
Lemma keeps_fs_rename p q : keeps_sessions (fs_rename p q).
Proof. apply keeps_fs_call. intros w. destruct (files w !! p); reflexivity. Qed.
Lemma keeps_fs_unlink p : keeps_sessions (fs_unlink p).
Proof. apply keeps_fs_call. intros w. destruct (files w !! p); reflexivity. Qed.
Lemma keeps_lock p o : keeps_sessions (lockfile_lock p o).
Proof. intros w. rewrite lockfile_lock_eq. destruct (lock_faults w) as [|[e|] ?]; reflexivity. Qed.
Lemma keeps_release r : keeps_sessions (release_lock r).
Proof. intros w. rewrite release_lock_eq. destruct (release_faults w) as [|[e|] ?]; reflexivity. Qed.
Lemma keeps_console l msg : keeps_sessions (console_print l msg).
Proof. intros w. reflexivity. Qed.
Lemma keeps_genId : keeps_sessions genId.
Proof. intros w. rewrite genId_eq. reflexivity. Qed.

Create HintDb keeps.
#[local] Hint Resolve keeps_ret keeps_throw keeps_bind keeps_try_catch keeps_finally
  keeps_try_locked keeps_fs_writeFile keeps_fs_mkdir keeps_fs_copyFile keeps_fs_rename
  keeps_fs_unlink keeps_lock keeps_release keeps_console keeps_genId : keeps.

Lemma keeps_writeJSON filePath data : keeps_sessions (writeJSON filePath data).
Proof.
  unfold writeJSON, console_error, console_warn.
  apply keeps_bind; [auto with keeps|]. intros _.
  apply keeps_try_locked; auto 10 with keeps.
  - intros _. apply keeps_bind; [auto with keeps|]. intros id.
    repeat (apply keeps_bind; [auto with keeps|]; intros _).
    apply keeps_try_catch; [auto with keeps|]. intros err.
    destruct (code_is err "EXDEV"); [auto 10 with keeps|].
    destruct (code_is err "ENOENT"); auto 10 with keeps.
  - intros [r|]; auto with keeps.
Qed.

(** With a disk that works, [writeJSON] returns, lock or no lock. *)
Lemma writeJSON_returns filePath data w :
  fs_faults w = [] -> wp (writeJSON filePath data) w (fun r w' => r = Return tt).
Proof.
  intros Hnil. rewrite writeJSON_unfold.
  unfold writeJSON_locked, writeJSON_catch, directWrite, writeJSON_finally.
  repeat wp_step_nofs; try reflexivity.
  all: exfalso; world_simpl; lookup_hyps; discriminate.
Qed.

Lemma persistSessions_spec w r w' :
  persistSessions w = (r, w') ->
  r = Return tt /\ sessions w' = sessions w /\
  (fs_faults w = [] -> stored SESSIONS_PATH (session_mirror w) w').
Proof.
  unfold persistSessions, try_catch, bind, get_sessions, session_mirror.
  pose proof (keeps_writeJSON SESSIONS_PATH (JArr (map session_record (sessions w))) w) as Hk.
  pose proof (writeJSON_stored SESSIONS_PATH (JArr (map session_record (sessions w))) w) as Hs.
  pose proof (writeJSON_returns SESSIONS_PATH (JArr (map session_record (sessions w))) w) as Hr.
  unfold wp in *.
  destruct (writeJSON SESSIONS_PATH (JArr (map session_record (sessions w))) w)
    as [[[]|e] w1]; simpl in *.
  - intros [= <- <-]. auto.
  - intros [= <- <-]. split; [reflexivity|]. split; [exact Hk|].
    intros Hnil. discriminate (Hr Hnil).
Qed.



(** ** The order of the persisted posts *)

Lemma comparePosts_keys a b ka kb :
  sortKey a = Some ka -> sortKey b = Some kb ->
  comparePosts a b =
  Return (Some (if negb (fst ka =? fst kb) then fst ka - fst kb else snd ka - snd kb)).
Proof.
  unfold sortKey, comparePosts, obind. intros Ha Hb.
  destruct (js_get a "date") as [da|]; [|discriminate].
  destruct (minutesOfDay a) as [[ta|]|]; try discriminate.
  destruct (getTime da) as [ma|]; [|discriminate].
  destruct (js_get b "date") as [db|]; [|discriminate].
  destruct (minutesOfDay b) as [[tb|]|]; try discriminate.
  destruct (getTime db) as [mb|]; [|discriminate].
  injection Ha as <-. injection Hb as <-. simpl.
  destruct (ma =? mb); reflexivity.
Qed.

Lemma key_le_total a b : key_le a b \/ key_lt b a.
Proof. unfold key_le, key_lt. lia. Qed.

Lemma key_lt_le a b : key_lt a b -> key_le a b.
Proof. unfold key_le, key_lt. lia. Qed.

Lemma key_le_trans a b c : key_le a b -> key_le b c -> key_le a c.
Proof. unfold key_le. lia. Qed.

Lemma before_trans a b c : before a b -> before b c -> before a c.
Proof.
  intros (ka & kb & Ha & Hb & Hab) (kb' & kc & Hb' & Hc & Hbc).
  rewrite Hb in Hb'. injection Hb' as <-.
  exists ka, kc. eauto using key_le_trans.
Qed.

(** What the comparison decides, in terms of the keys. *)
Lemma compare_positive ka kb :
  (0 <? (if negb (fst ka =? fst kb) then fst ka - fst kb else snd ka - snd kb)) = true
  <-> key_lt kb ka.
Proof.
  unfold key_lt. destruct (fst ka =? fst kb) eqn:E; simpl.
  - apply Z.eqb_eq in E. rewrite Z.ltb_lt. lia.
  - apply Z.eqb_neq in E. rewrite Z.ltb_lt. lia.
Qed.

Lemma same_key_lt a ka kb :
  sortKey a = Some ka -> key_lt ka kb -> same_key kb a = false.
Proof.
  unfold same_key, key_lt. intros -> H.
  destruct (fst ka =? fst kb) eqn:E1; [|reflexivity].
  destruct (snd ka =? snd kb) eqn:E2; [|reflexivity].
  apply Z.eqb_eq in E1, E2. lia.
Qed.

Lemma same_key_self a ka : sortKey a = Some ka -> same_key ka a = true.
Proof. unfold same_key. intros ->. rewrite !Z.eqb_refl. reflexivity. Qed.

Lemma insertPost_sorted x l :
  well_formed x -> Forall well_formed l -> StronglySorted before l ->
  exists r, insertPost x l = Return r /\
            Permutation (x :: l) r /\
            StronglySorted before r /\
            Forall well_formed r /\
            (forall k, List.filter (same_key k) r = List.filter (same_key k) (x :: l)).
Proof.
  intros [kx Hx] Hl Hs. induction l as [|y l IH].
  - exists [x]. simpl. repeat split; auto; repeat constructor. exists kx. exact Hx.
  - apply Forall_cons_iff in Hl as [[ky Hy] Hl]. apply StronglySorted_inv in Hs as [Hs Hy_l].
    simpl. rewrite (comparePosts_keys x y kx ky Hx Hy). simpl obind.
    destruct (0 <? _) eqn:E.
    + apply compare_positive in E.
      destruct (IH Hl Hs) as (r & -> & Hp & Hsr & Hwr & Hf). simpl.
      exists (y :: r). split; [reflexivity|]. split; [|split; [|split]].
      * rewrite perm_swap. constructor. exact Hp.
      * constructor; [exact Hsr|].
        apply List.Forall_forall. intros z Hz.
        apply (Permutation_in _ (Permutation_sym Hp)) in Hz. destruct Hz as [<-|Hz].
        -- exists ky, kx. auto using key_lt_le.
        -- rewrite List.Forall_forall in Hy_l. auto.
      * constructor; [exists ky; exact Hy|exact Hwr].
      * intros k. simpl. rewrite Hf. simpl.
        destruct (same_key k x) eqn:Ex; [|reflexivity].
        assert (same_key k y = false) as ->; [|reflexivity].
        unfold same_key in Ex. rewrite Hx in Ex.
        apply andb_true_iff in Ex as [E1 E2]. apply Z.eqb_eq in E1, E2.
        apply (same_key_lt y ky k Hy). unfold key_lt in *. lia.
    + exists (x :: y :: l). split; [reflexivity|]. split; [reflexivity|]. split; [|split].
      * assert (Hxy : key_le kx ky).
        { destruct (key_le_total kx ky) as [H|H]; [exact H|].
          apply compare_positive in H. congruence. }
        constructor; [constructor; assumption|].
        constructor; [exists kx, ky; auto|].
        rewrite List.Forall_forall in *. intros z Hz. eapply before_trans; [|apply Hy_l, Hz].
        exists kx, ky; auto.
      * constructor; [exists kx; exact Hx|]. constructor; [exists ky; exact Hy|exact Hl].
      * reflexivity.
Qed.

Lemma sortPosts_sorted posts :
  Forall well_formed posts ->
  exists sorted, sortPosts posts = Return sorted /\ key_sorted posts sorted /\
                 Forall well_formed sorted.
Proof.
  induction posts as [|x posts IH]; intros H.
  - exists []. unfold key_sorted. simpl. repeat split; auto; constructor.
  - apply Forall_cons_iff in H as [Hx Hl].
    destruct (IH Hl) as (s & Es & (Hp & Hs & Hf) & Hw). simpl. rewrite Es. simpl obind.
    destruct (insertPost_sorted x s Hx Hw Hs) as (r & -> & Hp' & Hs' & Hw' & Hf').
    exists r. split; [reflexivity|]. split; [|exact Hw'].
    split; [|split]; [|exact Hs'|].
    + rewrite <- Hp'. constructor. exact Hp.
    + intros k. rewrite Hf'. simpl. rewrite Hf. reflexivity.
Qed.

Lemma StronglySorted_lookup {A} (R : A -> A -> Prop) (l : list A) i j a b :
  StronglySorted R l -> (i < j)%nat -> l !! i = Some a -> l !! j = Some b -> R a b.
Proof.
  intros Hs. revert i j. induction Hs as [|x l Hs IH Hx]; intros i j Hij Hi Hj.
  - destruct i; discriminate.
  - destruct j as [|j]; [lia|]. destruct i as [|i]; simpl in *.
    + injection Hi as <-. rewrite List.Forall_forall in Hx. apply Hx.
      apply list_elem_of_In. eapply list_elem_of_lookup_2. exact Hj.
    + eapply IH; [|exact Hi|exact Hj]. lia.
Qed.

(** In the persisted order a post of strictly smaller key comes first. *)
Lemma smaller_key_first sorted i j a b ka kb :
  StronglySorted before sorted ->
  sorted !! i = Some a -> sorted !! j = Some b ->
  sortKey a = Some ka -> sortKey b = Some kb -> key_lt ka kb -> (i < j)%nat.
Proof.
  intros Hs Hi Hj Ha Hb Hlt.
  destruct (Nat.lt_trichotomy i j) as [H|[->|H]]; [exact H|..].
  - rewrite Hi in Hj. injection Hj as <-. rewrite Ha in Hb. injection Hb as <-.
    unfold key_lt in Hlt. lia.
  - destruct (StronglySorted_lookup before sorted j i b a Hs H Hj Hi)
      as (kb' & ka' & Hb' & Ha' & Hle).
    rewrite Hb in Hb'. rewrite Ha in Ha'. injection Hb' as <-. injection Ha' as <-.
    unfold key_lt, key_le in *. lia.
Qed.

(** A post without a time has the key of 00:00. *)
Lemma no_time_is_midnight o ms :
  getTime (obj_get "date" o) = Some ms -> truthy (obj_get "time" o) = false ->
  sortKey (JObj o) = Some (ms, 0).
Proof.
  unfold sortKey, minutesOfDay, js_get, obind. intros -> ->. reflexivity.
Qed.

Lemma sortPosts_key_sorted input sorted :
  Forall well_formed input -> sortPosts input = Return sorted -> key_sorted input sorted.
Proof.
  intros Hw E. destruct (sortPosts_sorted input Hw) as (s & Es & Hk & _).
  rewrite E in Es. injection Es as <-. exact Hk.
Qed.

Lemma sorting_writers_persist op w w' :
  (exists a, op = WritePosts a) \/ (exists a, op = CreatePost a) \/
  (exists a f, op = UpdatePost a f) ->
  perform op w = (Return true, w') ->
  exists input sorted,
    sorts op w input /\ sortPosts input = Return sorted /\ persisted sorted w' /\
    (Forall well_formed input -> key_sorted input sorted).
Proof.
  intros [[posts ->]|[[newPost ->]|(postId & updateFn & ->)]]; unfold perform, bind, ret.
  - destruct (writePostsOptimized posts w) as [[[]|e] w1] eqn:E; [|discriminate].
    intros [= <-].
    destruct (wp_run _ _ _ _ _ (writePostsOptimized_spec _ _) E) as (H & _).
    destruct (H eq_refl) as (sorted & Es & [Hst _] & _).
    exists posts, sorted. split; [apply sorts_write|]. split; [exact Es|]. split; [exact Hst|].
    intros Hw. exact (sortPosts_key_sorted _ _ Hw Es).
  - destruct (atomicCreatePost newPost w) as [[[c|msg]|e] w1] eqn:E; try discriminate.
    intros [= <-].
    destruct (wp_run _ _ _ _ _ (atomicCreatePost_spec _ _) E) as (H & _).
    destruct (H c eq_refl) as (_ & (data & posts & Hf & Hp & Es) & [Hst _] & _).
    exists (posts ++ [newPost])%list, (cre_allPosts c).
    split; [apply sorts_create; exists data; auto|]. split; [exact Es|]. split; [exact Hst|].
    intros Hw. exact (sortPosts_key_sorted _ _ Hw Es).
  - destruct (atomicUpdatePost postId updateFn w) as [[[u|msg]|e] w1] eqn:E; try discriminate.
    intros [= <-].
    destruct (wp_run _ _ _ _ _ (atomicUpdatePost_spec _ _ _) E) as (H & _).
    destruct (H u eq_refl) as ((data & posts & idx & Hf & Hp & Hi & Es) & [Hst _] & _).
    exists (<[idx := updateFn (default JNull (posts !! idx))]> posts), (upd_allPosts u).
    split; [apply sorts_update; [exists data; auto|exact Hi]|]. split; [exact Es|].
    split; [exact Hst|].
    intros Hw. exact (sortPosts_key_sorted _ _ Hw Es).
Qed.




(** ** The appended log record *)

Lemma appendLog_spec entry w :
  wp (appendLog entry) w
     (fun r w' =>
        forall out, r = Return (Some out) ->
          let id := toString 36 (clock w) ++ "-" ++ hd "" (random w) in
          let line := stringify (JObj out) ++ nl in
          out = Object_assign [("id", JStr id); ("time", JNum (clock w))] entry /\
          exists prior,
            files w' !! LOGS_ND_PATH = Some (prior ++ line) /\
            (fs_faults w = [] -> prior = default "" (files w !! LOGS_ND_PATH))).
Proof.
  unfold appendLog, ensureLogsFile.
  repeat wp_step; world_simpl; intros out Hout; try discriminate.
  all: injection Hout as <-; subst; cbv zeta; (split; [reflexivity|]).
  all: eexists; (split; [lookup_simpl; reflexivity|]).
  all: intros Hnil; try (exfalso; rewrite Hnil in *; simpl in *; discriminate).
  all: try reflexivity.
  all: match goal with Hno : files _ !! _ = None |- _ => rewrite Hno end; reflexivity.
Qed.

(** C8, as the code has it.  The record appendLog appends is the entry
    with an id and a time put in front: the id genId makes and the time
    Date.now() gives, unless the entry has an id or a time of its own,
    which then is the one recorded.  It is written as one line at the
    end of the log. *)
Theorem appended_record_defaults_id_and_time
    (entry out : object) (w w' : World) :
  NoDup (map fst entry) ->
  appendLog entry w = (Return (Some out), w') ->
  out = Object_assign [("id", JStr (generated_id w)); ("time", JNum (clock w))] entry /\
  obj_get "id" out = Some (default (JStr (generated_id w)) (obj_get "id" entry)) /\
  obj_get "time" out = Some (default (JNum (clock w)) (obj_get "time" entry)) /\
  count_char LF (stringify (JObj out) ++ nl) = 1%nat /\
  exists prior,
    files w' !! LOGS_ND_PATH = Some (prior ++ stringify (JObj out) ++ nl) /\
    (fs_faults w = [] -> prior = default "" (files w !! LOGS_ND_PATH)).
Proof.
  intros Hnd E.
  destruct (wp_run _ _ _ _ _ (appendLog_spec entry w) E out eq_refl) as (Hout & Hfile).
  fold (generated_id w) in Hout.
  split; [exact Hout|]. split; [|split; [|split; [|exact Hfile]]].
  - rewrite Hout, (obj_get_assign "id" _ _ Hnd). simpl.
    destruct (obj_get "id" entry); reflexivity.
  - rewrite Hout, (obj_get_assign "time" _ _ Hnd). simpl.
    destruct (obj_get "time" entry); reflexivity.
  - rewrite count_char_append, stringify_no_LF. reflexivity.
Qed.

Lemma appended_record_defaults_id_and_time_witness :
  exists out w',
    appendLog route_entry demo_world = (Return (Some out), w') /\
    obj_get "id" out = Some (JStr "mjw3xmo0-k3j2x9") /\
    obj_get "time" out = Some (JNum 1767311999000).
Proof.
  destruct (appendLog route_entry demo_world) as [r w'] eqn:E.
  assert (Hr : exists out, r = Return (Some out)).
  { apply (f_equal fst) in E. simpl in E. subst r. vm_compute. eexists. reflexivity. }
  destruct Hr as [out ->]. exists out, w'. split; [reflexivity|].
  assert (Hnd : NoDup (map fst route_entry)).
  { apply NoDup_ListNoDup. vm_compute. repeat constructor; simpl; intuition discriminate. }
  destruct (appended_record_defaults_id_and_time route_entry out demo_world w' Hnd E)
    as (_ & Hid & Htime & _).
  split; [exact Hid|exact Htime].
Defined.

(** Against C8 as stated: the id and the time of the record are the
    caller's. *)
Lemma caller_id_and_time_are_recorded :
  clock demo_world = 1767312000000 /\
  fst (appendLog [("id", JStr "mine"); ("time", JNum 5); ("action", JStr "create")] demo_world)
  = Return (Some [("id", JStr "mine"); ("time", JNum 5); ("action", JStr "create")]).
Proof. vm_compute. split; reflexivity. Qed.
